(** * Lab3.py: Newton-Raphson, secant and false position

    A shallow embedding of the three root finders of [Lab3.py] and the
    properties of their iteration, termination and failure behaviour.

    The Python code is duck-typed over its numbers: it only uses [-], [*],
    [/], [abs], [<], [>=] and the literals [0], [1e-12] and [1e-6].  The
    embedding is therefore written once over an interface [Arith] and run at
    two instances: binary64 floats (what the driver passes) and exact
    rationals (what the prose of the specification calls reals; in Python,
    [fractions.Fraction]). *)

From Stdlib Require Import ZArith QArith Qabs Floats String List Bool Lia Lqa.
Import ListNotations.

Set Implicit Arguments.

(** ** Python outcomes: a returned value or a raised exception *)

Inductive exn : Type :=
| ZeroDivisionError
| UnboundLocalError.

Inductive result (A : Type) : Type :=
| Ok (x : A)
| Raise (e : exn).

Arguments Ok {A} x.
Arguments Raise {A} e.

Definition bind {A B : Type} (m : result A) (k : A -> result B) : result B :=
  match m with
  | Ok x => k x
  | Raise e => Raise e
  end.

Notation "x <- m ;; k" := (bind m (fun x => k))
  (at level 61, m at next level, right associativity).

(** ** The arithmetic the routines use *)

Class Arith (T : Type) : Type := {
  zero : T;                       (* the literal 0 *)
  eps : T;                        (* the literal 1e-12 *)
  tol_default : T;                (* the literal 1e-6 *)
  sub : T -> T -> T;
  mul : T -> T -> T;
  div : T -> T -> result T;       (* raises ZeroDivisionError on a zero divisor *)
  abs : T -> T;
  ltb : T -> T -> bool;
  geb : T -> T -> bool;
  finite : T -> bool
}.

(** What the guards of [newton_raphson] and [secant_method] rely on. *)
Class ArithLaws {T : Type} (A : Arith T) : Prop := {
  div_guarded : forall x y : T, ltb (abs y) eps = false -> exists q, div x y = Ok q;
  sub_diag_guarded : forall y : T, finite y = true -> ltb (abs (sub y y)) eps = true
}.

(** ** Values, rows and frames *)

Section Values.
Variable T : Type.

(** The values stored in a history dict. *)
Inductive value : Type :=
| VInt (z : Z)
| VStr (s : string)
| VNum (x : T).

(** A history entry: a dict literal, kept with its keys in order. *)
Definition row : Type := list (string * value).

(** What a routine returns in either component of its pair. *)
Inductive obj : Type :=
| PyNone
| PyNum (x : T)
| DataFrame (rows : list row).

Fixpoint get (key : string) (r : row) : option value :=
  match r with
  | [] => None
  | (k, v) :: r' => if String.eqb k key then Some v else get key r'
  end.

Definition get_num (key : string) (r : row) : option T :=
  match get key r with
  | Some (VNum x) => Some x
  | _ => None
  end.

(** The rows of the frame a call returned; none when it returned no frame. *)
Definition trace_of (out : result (obj * obj)) : list row :=
  match out with
  | Ok (_, DataFrame rows) => rows
  | _ => []
  end.

End Values.

Arguments VInt {T} z.
Arguments VStr {T} s.
Arguments VNum {T} x.
Arguments PyNone {T}.
Arguments PyNum {T} x.
Arguments DataFrame {T} rows.

(** ** [for i in range(n): ... break] *)

Inductive ctl (S : Type) : Type :=
| Continue (s : S)
| Break (s : S).

Arguments Continue {S} s.
Arguments Break {S} s.

Section Loop.
Variable S : Type.
Variable body : Z -> S -> result (ctl S).

(** [n] iterations are left, the loop variable is [i]. *)
Fixpoint for_range (n : nat) (i : Z) (st : S) : result S :=
  match n with
  | O => Ok st
  | Datatypes.S n' =>
      match body i st with
      | Raise e => Raise e
      | Ok (Break st') => Ok st'
      | Ok (Continue st') => for_range n' (i + 1) st'
      end
  end.

(** The states at the head of the loop, in order: the initial one and the
    one left by every iteration that ran to its end without [break]. *)
Fixpoint loop_heads (n : nat) (i : Z) (st : S) : list S :=
  st :: match n with
        | O => []
        | Datatypes.S n' =>
            match body i st with
            | Ok (Continue st') => loop_heads n' (i + 1) st'
            | _ => []
            end
        end.
End Loop.

(** ** The three routines *)

Section RootFinder.
Context {T : Type} {A : Arith T}.

Local Open Scope string_scope.
Local Open Scope list_scope.
Local Open Scope Z_scope.

(** *** newton_raphson *)

Record newton_locals : Type := {
  nr_history : list (row T);
  nr_x_curr : T
}.

Definition newton_row (iter : Z) (x_curr f_val error : T) : row T :=
  [("Iter", VInt iter); ("Method", VStr "Newton"); ("x_curr", VNum x_curr);
   ("f(x)", VNum f_val); ("Error", VNum error)].

Definition newton_body (func deriv : T -> T) (tol : T) (i : Z)
    (st : newton_locals) : result (ctl newton_locals) :=
  let x_curr := nr_x_curr st in
  let f_val := func x_curr in
  let f_prime := deriv x_curr in
  if ltb (abs f_prime) eps then Ok (Break st)
  else
    q <- div f_val f_prime ;;
    let x_next := sub x_curr q in
    let error := abs (sub x_next x_curr) in
    let history := nr_history st ++ [newton_row (i + 1) x_curr f_val error] in
    let st' := {| nr_history := history; nr_x_curr := x_next |} in
    if ltb error tol then Ok (Break st') else Ok (Continue st').

Definition newton_raphson (func deriv : T -> T) (x0 tol : T) (max_iter : Z)
    : result (obj T * obj T) :=
  st <- for_range (newton_body func deriv tol) (Z.to_nat max_iter) 0
          {| nr_history := []; nr_x_curr := x0 |} ;;
  Ok (PyNum (nr_x_curr st), DataFrame (nr_history st)).

(** *** secant_method *)

Record secant_locals : Type := {
  sc_history : list (row T);
  sc_x_prev : T;
  sc_x_curr : T
}.

Definition secant_row (iter : Z) (x_curr f_curr error : T) : row T :=
  [("Iter", VInt iter); ("Method", VStr "Secant"); ("x_curr", VNum x_curr);
   ("f(x)", VNum f_curr); ("Error", VNum error)].

Definition secant_body (func : T -> T) (tol : T) (i : Z)
    (st : secant_locals) : result (ctl secant_locals) :=
  let x_prev := sc_x_prev st in
  let x_curr := sc_x_curr st in
  let f_curr := func x_curr in
  let f_prev := func x_prev in
  if ltb (abs (sub f_curr f_prev)) eps then Ok (Break st)
  else
    q <- div (sub x_curr x_prev) (sub f_curr f_prev) ;;
    let x_next := sub x_curr (mul f_curr q) in
    let error := abs (sub x_next x_curr) in
    let history := sc_history st ++ [secant_row (i + 1) x_curr f_curr error] in
    let st' := {| sc_history := history; sc_x_prev := x_curr; sc_x_curr := x_next |} in
    if ltb error tol then Ok (Break st') else Ok (Continue st').

Definition secant_method (func : T -> T) (x0 x1 tol : T) (max_iter : Z)
    : result (obj T * obj T) :=
  st <- for_range (secant_body func tol) (Z.to_nat max_iter) 0
          {| sc_history := []; sc_x_prev := x0; sc_x_curr := x1 |} ;;
  Ok (PyNum (sc_x_curr st), DataFrame (sc_history st)).

(** *** false_position *)

(** [fp_c] is [None] while the local [c] is still unbound. *)
Record fp_locals : Type := {
  fp_history : list (row T);
  fp_a : T;
  fp_b : T;
  fp_c_old : T;
  fp_c : option T
}.

Definition fp_row (iter : Z) (a b c fc error : T) : row T :=
  [("Iter", VInt iter); ("Method", VStr "FalsePos"); ("a", VNum a);
   ("b", VNum b); ("root", VNum c); ("f(x)", VNum fc); ("Error", VNum error)].

Definition fp_body (func : T -> T) (tol : T) (i : Z)
    (st : fp_locals) : result (ctl fp_locals) :=
  let a := fp_a st in
  let b := fp_b st in
  let c_old := fp_c_old st in
  let fa := func a in
  let fb := func b in
  q <- div (sub b a) (sub fb fa) ;;
  let c := sub b (mul fb q) in
  let fc := func c in
  let error := abs (sub c c_old) in
  let history := fp_history st ++ [fp_row (i + 1) a b c fc error] in
  if ltb error tol then
    Ok (Break {| fp_history := history; fp_a := a; fp_b := b;
                 fp_c_old := c_old; fp_c := Some c |})
  else if ltb (mul fa fc) zero then
    Ok (Continue {| fp_history := history; fp_a := a; fp_b := c;
                    fp_c_old := c; fp_c := Some c |})
  else
    Ok (Continue {| fp_history := history; fp_a := c; fp_b := b;
                    fp_c_old := c; fp_c := Some c |}).

Definition fp_init (a b : T) : fp_locals :=
  {| fp_history := []; fp_a := a; fp_b := b; fp_c_old := a; fp_c := None |}.

Definition false_position (func : T -> T) (a b tol : T) (max_iter : Z)
    : result (obj T * obj T) :=
  if geb (mul (func a) (func b)) zero then Ok (PyNone, PyNone)
  else
    st <- for_range (fp_body func tol) (Z.to_nat max_iter) 0 (fp_init a b) ;;
    match fp_c st with
    | None => Raise UnboundLocalError
    | Some c => Ok (PyNum c, DataFrame (fp_history st))
    end.
End RootFinder.

(** ** Binary64 floats: the numbers of the driver *)

Module FloatArith.
Local Open Scope float_scope.

(** Python's float [/]: a zero divisor of either sign raises. *)
Definition float_div (x y : float) : result float :=
  if y =? 0 then Raise ZeroDivisionError else Ok (x / y).

(** [0x1.19799812dea11p-40] and [0x1.0c6f7a0b5ed8dp-20] are the doubles
    that the literals [1e-12] and [1e-6] denote. *)
#[export] Instance float_arith : Arith float := {|
  zero := 0;
  eps := 0x1.19799812dea11p-40;
  tol_default := 0x1.0c6f7a0b5ed8dp-20;
  sub := PrimFloat.sub;
  mul := PrimFloat.mul;
  div := float_div;
  abs := PrimFloat.abs;
  ltb := PrimFloat.ltb;
  geb := fun x y => PrimFloat.leb y x;
  finite := is_finite
|}.
End FloatArith.

(** ** Exact rationals: the numbers of the specification's prose *)

Module RatArith.
Local Open Scope Q_scope.

Definition Q_div (x y : Q) : result Q :=
  if Qeq_bool y 0 then Raise ZeroDivisionError else Ok (x / y).

Definition Q_ltb (x y : Q) : bool := negb (Qle_bool y x).

(** The exact values of the doubles [1e-12] and [1e-6]: a comparison of a
    [Fraction] with a float is exact. *)
#[export] Instance Q_arith : Arith Q := {|
  zero := 0;
  eps := 4951760157141521 # 4951760157141521099596496896;
  tol_default := 4722366482869645 # 4722366482869645213696;
  sub := Qminus;
  mul := Qmult;
  div := Q_div;
  abs := Qabs;
  ltb := Q_ltb;
  geb := fun x y => Qle_bool y x;
  finite := fun _ => true
|}.
End RatArith.

(** ** Predicates on histories and loop states *)

Section Predicates.
Context {T : Type} {A : Arith T}.
Variable S : Type.
Variable hist : S -> list (row T).
Variable tol : T.

Definition row_error (r : row T) : option T := get_num "Error" r.

(** No row of [h] records an error below [tol]. *)
Definition none_converged (h : list (row T)) : Prop :=
  forall r e, In r h -> row_error r = Some e -> ltb e tol = false.

(** A row of [h] that records an error below [tol] is the last one. *)
Definition converged_is_last (h : list (row T)) : Prop :=
  forall k r e,
    nth_error h k = Some r -> row_error r = Some e -> ltb e tol = true ->
    Datatypes.S k = length h.

(** What one iteration does to the history: nothing before a guard's
    [break]; otherwise one row is appended, and the iteration goes on
    exactly when that row's error is not below [tol]. *)
Definition appends_one (st : S) (c : ctl S) : Prop :=
  match c with
  | Continue st' =>
      exists r e, hist st' = hist st ++ [r] /\ row_error r = Some e /\ ltb e tol = false
  | Break st' =>
      hist st' = hist st \/ exists r, hist st' = hist st ++ [r]
  end.

End Predicates.

(** ** Predicates on the rows of [false_position] *)

Section FalsePositionRows.
Context {T : Type} {A : Arith T}.
Variables (func : T -> T) (tol : T).

Local Open Scope Z_scope.

(** The bracket an iteration leaves when it does not [break]. *)
Definition fp_update (a b c : T) : T * T :=
  if ltb (mul (func a) (func c)) zero then (a, c) else (c, b).

(** [rows] are the rows recorded from the loop head [(a, b, c_old)] on,
    the loop variable being [i]: each is computed from the bracket of its
    own iteration, and a row is followed by another only if its error was
    not below [tol]. *)
Fixpoint fp_rows_from (i : Z) (a b c_old : T) (rows : list (row T)) : Prop :=
  match rows with
  | [] => True
  | r :: rest =>
      exists q : T,
        div (sub b a) (sub (func b) (func a)) = Ok q /\
        let c := sub b (mul (func b) q) in
        let error := abs (sub c c_old) in
        r = fp_row (i + 1) a b c (func c) error /\
        (rest = [] \/
         ltb error tol = false /\
         fp_rows_from (i + 1) (fst (fp_update a b c)) (snd (fp_update a b c)) c rest)
  end.

(** The sign change that [false_position] asks of a bracket. *)
Definition bracket_ok (st : fp_locals) : Prop :=
  ltb (mul (func (fp_a st)) (func (fp_b st))) zero = true.
End FalsePositionRows.

(** ** The bracket in exact arithmetic *)

Module ExactBracket.
Import RatArith.
Local Open Scope Q_scope.

(** The function values at the ends of the bracket have opposite signs. *)
Definition strict (func : Q -> Q) (st : fp_locals) : Prop :=
  func (fp_a st) * func (fp_b st) < 0.

(** The left end is an exact root that the last update moved [a] to. *)
Definition at_root (func : Q -> Q) (st : fp_locals) : Prop :=
  func (fp_a st) == 0 /\ fp_c_old st = fp_a st /\ ~ func (fp_b st) == 0.
End ExactBracket.

(** ** Concrete inputs *)

Module Inputs.
Local Open Scope Q_scope.

(** [lambda x: x] and its derivative, over the rationals. *)
Definition Q_ident (x : Q) : Q := x.
Definition Q_one (_ : Q) : Q := 1.

(** [lambda x: x * x + 1] and its derivative [lambda x: 2 * x], which
    vanishes at the second Newton iterate from [x0 = 1]. *)
Definition Q_square_plus_one (x : Q) : Q := x * x + 1.
Definition Q_twice (x : Q) : Q := 2 * x.

(** [lambda x: x * x - 2], whose root is bracketed by [1, 2]. *)
Definition Q_square_minus_two (x : Q) : Q := x * x - 2.

(** [lambda x: x**5 + x - 1], function A of the driver, over the rationals. *)
Definition Q_quintic (x : Q) : Q := x ^ 5 + x - 1.

(** A derivative that vanishes everywhere. *)
Definition Q_zero (_ : Q) : Q := 0.

(** [lambda x: x * x], positive at both ends of [1.0, 2.0]. *)
Definition float_square (x : float) : float := (x * x)%float.

(** [lambda x: x] over the floats. *)
Definition float_ident (x : float) : float := x.

(** [lambda x: -1.0 if x < -0.5 else (-2.0**-600 if x < 0.5 else 2.0**-600)]:
    total, with three finite values. *)
Definition float_far (x : float) : float :=
  (if x <? -0.5 then -1 else if x <? 0.5 then -0x1p-600 else 0x1p-600)%float.


(** [lambda x: -2.0**-537 if x < -0.5 else (2.0**-539 if x == 0 else 2.0**-537)]:
    total, with three finite values. *)
Definition float_steps (x : float) : float :=
  (if x <? -0.5 then -0x1p-537 else if x =? 0 then 0x1p-539 else 0x1p-537)%float.
End Inputs.

(** ** A certificate for a run of [false_position] on [x**5 + x - 1]

    On [0, 1] this function is increasing and negative left of its root, so
    the run only ever moves [a].  A certificate lists, for each iteration, an
    interval that contains the chord point; the checks below are what makes
    such a list a proof of the run. *)

Module QuinticCertificate.
Import Inputs RatArith.
Local Open Scope Q_scope.

(** Bounds on the chord point [1 - (1 - a) / (1 - f(a))] for [a] in
    [[lo, hi]]. *)
Definition chord_lo (lo hi : Q) : Q := 1 - (1 - lo) / (1 - Q_quintic hi).
Definition chord_hi (lo hi : Q) : Q := 1 - (1 - hi) / (1 - Q_quintic lo).

Definition enclosed (lo hi lo' hi' : Q) : bool :=
  Qle_bool 0 lo && Qle_bool lo hi && Qle_bool hi 1 && Q_ltb (Q_quintic hi) 0 &&
  Qle_bool lo' (chord_lo lo hi) && Qle_bool (chord_hi lo hi) hi'.

(** The chord point of an iteration from [[lo, hi]] lies in [[lo', hi']]; the
    iteration then goes on when its error is surely at least [tol] and [f] is
    still negative at the chord point, and stops when its error is surely
    below [tol]. *)
Definition goes_on (tol lo hi lo' hi' : Q) : bool :=
  enclosed lo hi lo' hi' && Qle_bool tol (lo' - hi) && Qle_bool 0 lo' &&
  Q_ltb (Q_quintic hi') 0.

Definition stops (tol lo hi lo' hi' : Q) : bool :=
  enclosed lo hi lo' hi' && Q_ltb (hi' - lo) tol && Q_ltb (hi - lo') tol.

Fixpoint certified (tol : Q) (table : list (Q * Q)) (lo hi : Q) : bool :=
  match table with
  | [] => false
  | (lo', hi') :: rest =>
      match rest with
      | [] => stops tol lo hi lo' hi'
      | _ :: _ => goes_on tol lo hi lo' hi' && certified tol rest lo' hi'
      end
  end.

(** The loop head of a run that has only moved [a]. *)
Definition left_moving (lo hi : Q) (st : fp_locals) : Prop :=
  fp_b st = 1 /\ fp_c_old st = fp_a st /\ lo <= fp_a st /\ fp_a st <= hi.

(** Intervals of width below [1e-15] around the fourteen chord points of the
    run from [a = 0], in units of [1e-18]. *)
Definition quintic_table : list (Q * Q) :=
  [(500000000000000000 # 1000000000000000000, 500000000000000000 # 1000000000000000000);
   (659574468085106382 # 1000000000000000000, 659574468085106383 # 1000000000000000000);
   (719951628811561151 # 1000000000000000000, 719951628811561153 # 1000000000000000000);
   (742276085431608166 # 1000000000000000000, 742276085431608170 # 1000000000000000000);
   (750361766503411311 # 1000000000000000000, 750361766503411319 # 1000000000000000000);
   (753263551876234231 # 1000000000000000000, 753263551876234245 # 1000000000000000000);
   (754301282689486261 # 1000000000000000000, 754301282689486285 # 1000000000000000000);
   (754671916026521785 # 1000000000000000000, 754671916026521825 # 1000000000000000000);
   (754804229089611571 # 1000000000000000000, 754804229089611638 # 1000000000000000000);
   (754851455921837094 # 1000000000000000000, 754851455921837205 # 1000000000000000000);
   (754868311712476506 # 1000000000000000000, 754868311712476690 # 1000000000000000000);
   (754874327607320795 # 1000000000000000000, 754874327607321098 # 1000000000000000000);
   (754876474686491194 # 1000000000000000000, 754876474686491693 # 1000000000000000000);
   (754877240979226522 # 1000000000000000000, 754877240979227343 # 1000000000000000000)].
End QuinticCertificate.

(** ** Predicates for the further properties *)

Section Outcomes.
Context {T : Type} {A : Arith T}.

(** The last row of [rows] records an error below [tol]. *)
Definition last_row_converged (tol : T) (rows : list (row T)) : Prop :=
  exists (r : row T) (e : T),
    nth_error rows (length rows - 1) = Some r /\
    row_error r = Some e /\ ltb e tol = true.
End Outcomes.

Module ExactNesting.
Import RatArith ExactBracket.
Local Open Scope Q_scope.

(** The bracket of [st] is ordered and lies within [[a0, b0]]; a bracket
    whose left end is an exact root has that end strictly inside. *)
Definition nested (func : Q -> Q) (a0 b0 : Q) (st : fp_locals) : Prop :=
  a0 <= fp_a st /\ fp_a st < fp_b st /\ fp_b st <= b0 /\
  (strict func st \/ at_root func st /\ a0 < fp_a st).
End ExactNesting.

(** ** [x**5 + x - 1] on binary64

    CPython takes [x**5] on floats with the C library's [pow], whose result
    the source does not fix to the last bit.  The run is therefore taken
    for every fifth power [p] that is faithful: at each [x] it returns
    [x**5] rounded down or rounded up to a double. *)

Module QuinticFloat.
Import FloatArith.
Local Open Scope Z_scope.
Local Open Scope string_scope.
Local Open Scope list_scope.
Local Open Scope float_scope.

(** The double [n * 2**u], for [n] of at most 53 bits. *)
Definition grid_float (n u : Z) : float :=
  SF2Prim (binary_normalize prec emax n u false).

(** For a double [x] in [0, 1]: the two neighbours of the exact [x**5] on
    the grid of doubles at its magnitude, that is [x**5] rounded down and
    rounded up; they are the same double when [x**5] is one. *)
Definition pow5_bounds (x : float) : float * float :=
  match Prim2SF x with
  | S754_finite false m e =>
      let M := (Z.pos m ^ 5)%Z in
      let E := (5 * e)%Z in
      let u := Z.max (Z.log2 M + E - 52) (-1074) in
      if (u <=? E)%Z then
        (grid_float (M * 2 ^ (E - u)) u, grid_float (M * 2 ^ (E - u)) u)
      else
        let n := (M / 2 ^ (u - E))%Z in
        if (M mod 2 ^ (u - E) =? 0)%Z then (grid_float n u, grid_float n u)
        else (grid_float n u, grid_float (n + 1) u)
  | _ => (x, x)
  end.

Definition in01 (x : float) : bool := (0 <=? x) && (x <=? 1).

(** [p] is a fifth power with an error below one unit in the last place. *)
Definition faithful_pow5 (p : float -> float) : Prop :=
  forall x : float,
    in01 x = true ->
    p x = fst (pow5_bounds x) \/ p x = snd (pow5_bounds x).

(** [lambda x: x**5 + x - 1], with [p] for [x**5]. *)
Definition quintic (p : float -> float) (x : float) : float := p x + x - 1.

(** The values of the function fixed so far, by argument. *)
Definition memo : Type := list (float * float).

Fixpoint lookup (t : memo) (x : float) : option float :=
  match t with
  | [] => None
  | (y, v) :: t' => if Leibniz.eqb y x then Some v else lookup t' x
  end.

(** [k] holds of every value that [x**5 + x - 1] may take at [x]: the one
    fixed already, or else the one that either bound of [x**5] gives. *)
Definition with_value (t : memo) (x : float) (k : memo -> float -> bool) : bool :=
  match lookup t x with
  | Some v => k t v
  | None =>
      let (lo, hi) := pow5_bounds x in
      let v_lo := lo + x - 1 in
      let v_hi := hi + x - 1 in
      if in01 x then
        if k ((x, v_lo) :: t) v_lo then
          if Leibniz.eqb v_lo v_hi then true else k ((x, v_hi) :: t) v_hi
        else false
      else false
  end.

(** The estimate is within [1e-6] of [0.754878]: it lies between the
    doubles nearest to [0.7548771] and [0.7548789]. *)
Definition accept (c : float) : bool :=
  (0x1.827f4051ffa71p-1 <? c) && (c <? 0x1.827f7cb7e1834p-1).

(** Every run of the loop of [false_position] from the loop head
    [(a, b, c_old)], whatever values within its bounds [x**5] takes, ends
    within [fuel] iterations at a [break] with an accepted estimate. *)
Fixpoint explore (fuel : nat) (t : memo) (a b c_old : float) : bool :=
  match fuel with
  | O => false
  | Datatypes.S fuel' =>
      with_value t a (fun t1 fa =>
      with_value t1 b (fun t2 fb =>
        match float_div (b - a) (fb - fa) with
        | Raise _ => false
        | Ok q =>
            let c := b - fb * q in
            with_value t2 c (fun t3 fc =>
              if abs (c - c_old) <? tol_default then accept c
              else if fa * fc <? 0 then explore fuel' t3 a c c
              else explore fuel' t3 c b c)
        end))
  end.

(** The same from the call on: the bracket is valid, and the loop ends. *)
Definition explore_call (a b : float) (max_iter : nat) : bool :=
  with_value [] a (fun t1 fa =>
  with_value t1 b (fun t2 fb =>
    if 0 <=? fa * fb then false else explore max_iter t2 a b a)).
End QuinticFloat.

(** ** Signs at the ends of a bracket *)

Section Signs.
Context {T : Type} {A : Arith T}.

(** [x] and [y] have strictly opposite signs. *)
Definition opposite_signs (x y : T) : Prop :=
  ltb x zero = true /\ ltb zero y = true \/
  ltb zero x = true /\ ltb y zero = true.

(** [x] and [y] have the same strict sign. *)
Definition same_sign (x y : T) : Prop :=
  ltb x zero = true /\ ltb y zero = true \/
  ltb zero x = true /\ ltb zero y = true.
End Signs.

(** What the sign of a product tells about its factors. *)
Class SignLaws {T : Type} (A : Arith T) : Prop := {
  not_both_signs : forall x : T, ltb x zero = true -> ltb zero x = true -> False;
  mul_neg_signs : forall x y : T, ltb (mul x y) zero = true -> opposite_signs x y;
  mul_pos_signs : forall x y : T, ltb zero (mul x y) = true -> same_sign x y
}.

(** ** The driver *)

Section Driver.
Context {T : Type} {A : Arith T}.
Local Open Scope Z_scope.
Local Open Scope string_scope.
Local Open Scope list_scope.

(** One item of [functions_data]: [key: [func, deriv, a, b, label]]. *)
Record entry : Type := {
  e_key : string;
  e_func : T -> T;
  e_deriv : T -> T;
  e_a : T;
  e_b : T;
  e_label : string
}.

(** What the driver does to the outside, in order: the text it prints and
    its calls of [plot_interactive_false_position].  [PrintLine s] is
    [print(s)]; [PrintRoot root_f] is the line [Root found at: ] followed by
    [root_f] under [:.6f]; [PrintFrame rows] is
    [print(tab_f.to_string(index=False))].  The rendering of a number and of
    a frame is not modelled: the event keeps the value that is rendered.
    The plotting call is recorded with its arguments and taken to return. *)
Inductive event : Type :=
| PrintLine (s : string)
| PrintRoot (root_f : T)
| PrintFrame (rows : list (row T))
| plot_interactive_false_position (func : T -> T) (a b root : T) (label : string).

(** How the driver can die: an exception of [false_position], [:.6f]
    applied to something that is not a number, [to_string] looked up on a
    number. *)
Inductive failure : Type :=
| Raised (e : exn)
| TypeError
| AttributeError.

Definition newline : string := String (Ascii.ascii_of_nat 10) EmptyString.

(** [s * n] *)
Fixpoint times (n : nat) (s : string) : string :=
  match n with
  | O => EmptyString
  | Datatypes.S n' => s ++ times n' s
  end.

Definition banner : list event :=
  [PrintLine (times 60 "=");
   PrintLine " NOTE: TO ZOOM WITH SCROLL WHEEL:";
   PrintLine " 1. Run this cell.";
   PrintLine " 2. In the graph toolbar, CLICK the 'Zoom' icon (Magnifying Glass).";
   PrintLine " 3. Now SCROLL inside the graph area.";
   PrintLine (times 60 "=" ++ newline)].

Definition header (e : entry) : event :=
  PrintLine ("--- Processing Function " ++ e_key e ++ ": " ++ e_label e ++ " ---").

Definition failed : event := PrintLine "False Position Failed (Invalid Bracket)".

Definition rule : event := PrintLine (newline ++ times 40 "-" ++ newline).

(** The body of the [for] loop over [functions_data.items()]: the events of
    one item, and the exception that ended it, if any. *)
Definition process (e : entry) : list event * option failure :=
  match false_position (e_func e) (e_a e) (e_b e) tol_default 50 with
  | Raise ex => ([header e], Some (Raised ex))
  | Ok (root_f, tab_f) =>
      match tab_f with
      | PyNone => ([header e; failed; rule], None)
      | _ =>
          match root_f with
          | PyNum x =>
              match tab_f with
              | DataFrame rows =>
                  ([header e; PrintRoot x; PrintFrame rows;
                    plot_interactive_false_position
                      (e_func e) (e_a e) (e_b e) x (e_label e);
                    rule], None)
              | _ => ([header e; PrintRoot x], Some AttributeError)
              end
          | _ => ([header e], Some TypeError)
          end
      end
  end.

Fixpoint process_all (items : list entry) : list event * option failure :=
  match items with
  | [] => ([], None)
  | e :: rest =>
      match process e with
      | (evs, Some f) => (evs, Some f)
      | (evs, None) =>
          let (evs', f) := process_all rest in (evs ++ evs', f)
      end
  end.

(** The [__main__] block, run on the items of [functions_data]. *)
Definition main (functions_data : list entry) : list event * option failure :=
  let (evs, f) := process_all functions_data in (banner ++ evs, f).

(** The events of an item that was processed to its end: the failure
    message when the bracket is invalid; otherwise the estimate and the
    frame that [false_position] returned, and a plot of the item's own
    bracket with that estimate. *)
Definition reported (e : entry) (block : list event) : Prop :=
  geb (mul (e_func e (e_a e)) (e_func e (e_b e))) zero = true /\
  block = [header e; failed; rule]
  \/
  geb (mul (e_func e (e_a e)) (e_func e (e_b e))) zero = false /\
  exists (c : T) (rows : list (row T)),
    false_position (e_func e) (e_a e) (e_b e) tol_default 50
    = Ok (PyNum c, DataFrame rows) /\
    block = [header e; PrintRoot c; PrintFrame rows;
             plot_interactive_false_position
               (e_func e) (e_a e) (e_b e) c (e_label e);
             rule].
End Driver.

Arguments entry T : clear implicits.
Arguments event T : clear implicits.

(** Items for the instances of the driver's properties. *)
Module DriverInputs.
Import Inputs FloatArith RatArith.
Local Open Scope Z_scope.
Local Open Scope string_scope.
Local Open Scope list_scope.

(** Two items over the rationals: a valid bracket, then an invalid one. *)
Definition Q_items : list (entry Q) :=
  [{| e_key := "A"; e_func := Q_ident; e_deriv := Q_one;
      e_a := (-1)%Q; e_b := 1%Q; e_label := "x" |};
   {| e_key := "B"; e_func := Q_square_plus_one; e_deriv := Q_twice;
      e_a := 1%Q; e_b := 2%Q; e_label := "x^2 + 1" |}].
End DriverInputs.

(** * Properties *)

(** ** The arithmetic laws hold at both instances *)

Module FloatLaws.
Import FloatArith.
Local Open Scope float_scope.

Lemma guard_nonzero (y : float) :
  (PrimFloat.abs y <? 0x1.19799812dea11p-40) = false -> (y =? 0) = false.
Proof.
  rewrite FloatAxioms.ltb_spec, FloatAxioms.eqb_spec, FloatAxioms.abs_spec.
  destruct (Prim2SF y) as [s|s| |s m e].
  - intros Hlt. exfalso. revert Hlt. destruct s; vm_compute; discriminate.
  - intros _. destruct s; reflexivity.
  - reflexivity.
  - intros _. destruct s; reflexivity.
Qed.

Lemma finite_sub_diag (y : float) :
  is_finite y = true -> Prim2SF (y - y) = S754_zero false.
Proof.
  unfold is_finite, is_nan, is_infinity.
  rewrite FloatAxioms.sub_spec, !FloatAxioms.eqb_spec, FloatAxioms.abs_spec.
  destruct (Prim2SF y) as [s|s| |s m e].
  - intros _. destruct s; reflexivity.
  - intros Hfin. exfalso. revert Hfin. destruct s; vm_compute; discriminate.
  - intros Hfin. exfalso. revert Hfin. vm_compute; discriminate.
  - intros _. unfold SF64sub, SFsub. rewrite Z.sub_diag. reflexivity.
Qed.

#[export] Instance float_laws : ArithLaws float_arith.
Proof.
  split.
  - intros x y Hg. cbn in *. apply guard_nonzero in Hg.
    unfold float_div. rewrite Hg. eauto.
  - intros y Hf. cbn in *. rewrite FloatAxioms.ltb_spec, FloatAxioms.abs_spec.
    rewrite (finite_sub_diag _ Hf). reflexivity.
Qed.
End FloatLaws.

Module RatLaws.
Import RatArith.
Local Open Scope Q_scope.

Lemma Q_ltb_lt (x y : Q) : Q_ltb x y = true <-> x < y.
Proof.
  unfold Q_ltb. rewrite negb_true_iff, <- not_true_iff_false, Qle_bool_iff.
  split; [apply Qnot_le_lt | apply Qlt_not_le].
Qed.

Lemma Q_ltb_ge (x y : Q) : Q_ltb x y = false <-> y <= x.
Proof.
  unfold Q_ltb. rewrite negb_false_iff, Qle_bool_iff. tauto.
Qed.

Lemma Q_div_ok (x y : Q) : ~ y == 0 -> Q_div x y = Ok (x / y).
Proof.
  intros Hy. unfold Q_div.
  destruct (Qeq_bool y 0) eqn:E; [|reflexivity].
  apply Qeq_bool_iff in E. contradiction.
Qed.

(** The routines write [y * (n / d)] where the usual statement of the secant
    and chord formulas has [y * n / d]; over the rationals the two agree. *)
Lemma Q_mul_div_regroup (y n d : Q) : ~ d == 0 -> y * (n / d) == y * n / d.
Proof. intros Hd. field. exact Hd. Qed.

#[export] Instance Q_laws : ArithLaws Q_arith.
Proof.
  split.
  - intros x y Hg. cbn in *. apply Q_ltb_ge in Hg.
    exists (x / y). apply Q_div_ok. intros Hy.
    rewrite Hy in Hg. revert Hg. apply Qlt_not_le. reflexivity.
  - intros y _.
    change (Q_ltb (Qabs (y - y)) (@eps Q Q_arith) = true).
    apply Q_ltb_lt.
    assert (Hz : y - y == 0) by ring.
    rewrite (Qabs_wd _ _ Hz). reflexivity.
Qed.
End RatLaws.

(** ** The sign laws hold at both instances *)

Module FloatSigns.
Import FloatArith.
Local Open Scope float_scope.

Lemma round_aux_sign (sx : bool) (mx ex : Z) (lx : location) :
  binary_round_aux prec emax sx mx ex lx = S754_zero sx \/
  (exists m e, binary_round_aux prec emax sx mx ex lx = S754_finite sx m e) \/
  binary_round_aux prec emax sx mx ex lx = S754_infinity sx \/
  binary_round_aux prec emax sx mx ex lx = S754_nan.
Proof.
  unfold binary_round_aux.
  destruct (shr_fexp prec emax mx ex lx) as [mrs' e'].
  destruct (shr_fexp prec emax _ e' loc_Exact) as [mrs'' e''].
  destruct (shr_m mrs'') as [|m|m]; [left; reflexivity | | right; right; right; reflexivity].
  destruct (Z.leb e'' (emax - prec)).
  - right. left. eauto.
  - right. right. left. reflexivity.
Qed.

Lemma zero_spec : Prim2SF 0 = S754_zero false.
Proof. reflexivity. Qed.

(** [x < 0] and [0 < x] on the specification side. *)
Lemma SF_neg (x : spec_float) :
  SFltb x (S754_zero false) = true ->
  x = S754_infinity true \/ exists m e, x = S754_finite true m e.
Proof.
  destruct x as [s|s| |s m e]; try discriminate; destruct s; try discriminate; eauto.
Qed.

Lemma SF_pos (x : spec_float) :
  SFltb (S754_zero false) x = true ->
  x = S754_infinity false \/ exists m e, x = S754_finite false m e.
Proof.
  destruct x as [s|s| |s m e]; try discriminate; destruct s; try discriminate; eauto.
Qed.

Lemma SFmul_sign (x y : spec_float) :
  SF64mul x y = S754_nan \/ (exists s, SF64mul x y = S754_zero s) \/
  exists sx sy,
    (x = S754_infinity sx \/ exists m e, x = S754_finite sx m e) /\
    (y = S754_infinity sy \/ exists m e, y = S754_finite sy m e) /\
    (SF64mul x y = S754_infinity (xorb sx sy) \/
     exists m e, SF64mul x y = S754_finite (xorb sx sy) m e).
Proof.
  unfold SF64mul, SFmul.
  destruct x as [sx|sx| |sx mx ex], y as [sy|sy| |sy my ey];
    try (left; reflexivity); try (right; left; eexists; reflexivity).
  - right. right. exists sx, sy.
    split; [left; reflexivity|]. split; [left; reflexivity|]. left. reflexivity.
  - right. right. exists sx, sy.
    split; [left; reflexivity|]. split; [right; eauto|]. left. reflexivity.
  - right. right. exists sx, sy.
    split; [right; eauto|]. split; [left; reflexivity|]. left. reflexivity.
  - destruct (round_aux_sign (xorb sx sy) (Zpos (mx * my)) (ex + ey) loc_Exact)
      as [H | [[m [e H]] | [H | H]]]; rewrite H.
    + right. left. eexists. reflexivity.
    + right. right. exists sx, sy.
      split; [right; eauto|]. split; [right; eauto|]. right. eauto.
    + right. right. exists sx, sy.
      split; [right; eauto|]. split; [right; eauto|]. left. reflexivity.
    + left. reflexivity.
Qed.

#[export] Instance float_signs : SignLaws float_arith.
Proof.
  split.
  - intros x. cbn. rewrite !FloatAxioms.ltb_spec, zero_spec.
    intros Hn Hp. apply SF_neg in Hn. apply SF_pos in Hp.
    destruct Hn as [Hn | [m [e Hn]]], Hp as [Hp | [m' [e' Hp]]]; congruence.
  - intros x y. unfold opposite_signs. cbn.
    rewrite !FloatAxioms.ltb_spec, FloatAxioms.mul_spec, zero_spec.
    intros H.
    destruct (SFmul_sign (Prim2SF x) (Prim2SF y))
      as [Hr | [[s Hr] | [sx [sy [Hx [Hy Hr]]]]]].
    + rewrite Hr in H. discriminate.
    + rewrite Hr in H. destruct s; discriminate.
    + assert (Hs : xorb sx sy = true).
      { destruct Hr as [Hr | [m [e Hr]]]; rewrite Hr in H;
          destruct (xorb sx sy); [reflexivity | discriminate | reflexivity | discriminate]. }
      destruct sx, sy; try discriminate; [left | right];
        (split; [destruct Hx as [-> | [m [e ->]]] | destruct Hy as [-> | [m [e ->]]]]);
        reflexivity.
  - intros x y. unfold same_sign. cbn.
    rewrite !FloatAxioms.ltb_spec, FloatAxioms.mul_spec, zero_spec.
    intros H.
    destruct (SFmul_sign (Prim2SF x) (Prim2SF y))
      as [Hr | [[s Hr] | [sx [sy [Hx [Hy Hr]]]]]].
    + rewrite Hr in H. discriminate.
    + rewrite Hr in H. destruct s; discriminate.
    + assert (Hs : xorb sx sy = false).
      { destruct Hr as [Hr | [m [e Hr]]]; rewrite Hr in H;
          destruct (xorb sx sy); [discriminate | reflexivity | discriminate | reflexivity]. }
      destruct sx, sy; try discriminate; [left | right];
        (split; [destruct Hx as [-> | [m [e ->]]] | destruct Hy as [-> | [m [e ->]]]]);
        reflexivity.
Qed.
End FloatSigns.

Module RatSigns.
Import RatArith RatLaws.
Local Open Scope Q_scope.

Lemma opposite_signs_iff (x y : Q) : opposite_signs x y <-> x * y < 0.
Proof.
  unfold opposite_signs. cbn. rewrite !Q_ltb_lt. split.
  - intros [[Hx Hy] | [Hx Hy]]; nra.
  - intros H.
    destruct (Q_dec x 0) as [[Hx | Hx] | Hx].
    + left. split; [exact Hx | nra].
    + right. split; [exact Hx | nra].
    + rewrite Hx in H. lra.
Qed.

#[export] Instance Q_signs : SignLaws Q_arith.
Proof.
  split.
  - intros x. cbn. rewrite !Q_ltb_lt. lra.
  - intros x y H. apply opposite_signs_iff. cbn in H. apply Q_ltb_lt in H. exact H.
  - intros x y. unfold same_sign. cbn. rewrite !Q_ltb_lt. intros H.
    destruct (Q_dec x 0) as [[Hx | Hx] | Hx].
    + left. split; [exact Hx | nra].
    + right. split; [exact Hx | nra].
    + rewrite Hx in H. lra.
Qed.
End RatSigns.

(** ** Facts about [for_range] *)

Section LoopFacts.
Variable S : Type.
Variable body : Z -> S -> result (ctl S).

Local Open Scope Z_scope.

(** An invariant [I] of the loop head, kept by every iteration that
    continues, gives [R] at the exit, whether by [break] or by exhausting the
    range; [R] is indexed by the number of iterations entered. *)
Lemma for_range_invariant (I R : Z -> S -> Prop) :
  (forall i st st', I i st -> body i st = Ok (Continue st') -> I (i + 1) st') ->
  (forall i st st', I i st -> body i st = Ok (Break st') -> R (i + 1) st') ->
  (forall i st, I i st -> R i st) ->
  forall n i st st',
    I i st -> for_range body n i st = Ok st' ->
    exists j, i <= j <= i + Z.of_nat n /\ R j st'.
Proof.
  intros Hcont Hbreak Hexit.
  induction n as [|n IH]; intros i st st' Hi Hrun; simpl in Hrun.
  - injection Hrun as <-. exists i. split; [lia | auto].
  - destruct (body i st) as [[s|s]|e] eqn:Eb; try discriminate.
    + destruct (IH (i + 1) s st' (Hcont _ _ _ Hi Eb) Hrun) as [j [Hj HR]].
      exists j. split; [lia | exact HR].
    + injection Hrun as <-. exists (i + 1). split; [lia | eauto].
Qed.

Lemma loop_heads_invariant (I : S -> Prop) :
  (forall i st st', I st -> body i st = Ok (Continue st') -> I st') ->
  forall n i st, I st -> Forall I (loop_heads body n i st).
Proof.
  intros Hcont. induction n as [|n IH]; intros i st Hst; simpl.
  - constructor; [exact Hst | constructor].
  - constructor; [exact Hst |].
    destruct (body i st) as [[s|s]|e] eqn:Eb; try constructor.
    apply IH. eapply Hcont; eauto.
Qed.

(** Consecutive loop heads are the two ends of one full iteration. *)
Lemma loop_heads_step (n : nat) (i : Z) (st : S) (k : nat) (s s' : S) :
  nth_error (loop_heads body n i st) k = Some s ->
  nth_error (loop_heads body n i st) (Datatypes.S k) = Some s' ->
  body (i + Z.of_nat k) s = Ok (Continue s').
Proof.
  revert n i st. induction k as [|k IH]; intros n i st Hs Hs'.
  - destruct n as [|n]; simpl in Hs, Hs'; [discriminate|].
    injection Hs as <-. rewrite Z.add_0_r.
    destruct (body i st) as [[t|t]|e]; try discriminate.
    destruct n; simpl in Hs'; injection Hs' as <-; reflexivity.
  - destruct n as [|n]; simpl in Hs, Hs'; [destruct k; discriminate|].
    destruct (body i st) as [[t|t]|e]; try (destruct k; discriminate).
    replace (i + Z.of_nat (Datatypes.S k)) with ((i + 1) + Z.of_nat k) by lia.
    eapply IH; eauto.
Qed.

(** The loop run from its [k]-th head is the rest of the loop. *)
Lemma for_range_from_head (n : nat) (i : Z) (st : S) (k : nat) (s : S) :
  nth_error (loop_heads body n i st) k = Some s ->
  for_range body n i st = for_range body (n - k) (i + Z.of_nat k) s.
Proof.
  revert n i st. induction k as [|k IH]; intros n i st Hs.
  - destruct n; simpl in Hs; injection Hs as <-;
      rewrite Z.add_0_r, Nat.sub_0_r; reflexivity.
  - destruct n as [|n]; simpl in Hs; [destruct k; discriminate|].
    destruct (body i st) as [[t|t]|e] eqn:Eb; try (destruct k; discriminate).
    simpl for_range at 1. rewrite Eb.
    replace (i + Z.of_nat (Datatypes.S k)) with ((i + 1) + Z.of_nat k) by lia.
    apply IH. exact Hs.
Qed.

(** An iteration that goes on from a loop head leaves the next loop head. *)
Lemma loop_heads_next (n : nat) (i : Z) (st : S) (k : nat) (s s' : S) :
  nth_error (loop_heads body n i st) k = Some s ->
  (k < n)%nat ->
  body (i + Z.of_nat k) s = Ok (Continue s') ->
  nth_error (loop_heads body n i st) (Datatypes.S k) = Some s'.
Proof.
  revert n i st. induction k as [|k IH]; intros n i st Hs Hlt Hb.
  - destruct n as [|n]; [lia|]. simpl in Hs. injection Hs as <-.
    rewrite Z.add_0_r in Hb. cbn [loop_heads nth_error]. rewrite Hb.
    destruct n; reflexivity.
  - destruct n as [|n]; [lia|]. simpl in Hs.
    destruct (body i st) as [[t|t]|e] eqn:Eb; try (destruct k; discriminate).
    cbn [loop_heads]. rewrite Eb.
    change (nth_error (loop_heads body n (i + 1) t) (Datatypes.S k) = Some s').
    apply IH; [exact Hs | lia |].
    replace (i + 1 + Z.of_nat k) with (i + Z.of_nat (Datatypes.S k)) by lia.
    exact Hb.
Qed.

End LoopFacts.

(** ** Loops that keep a history *)

Section HistoryLoop.
Context {T : Type} {A : Arith T}.
Variable S : Type.
Variable hist : S -> list (row T).
Variable tol : T.

Local Open Scope Z_scope.

Lemma none_converged_nil : none_converged tol [].
Proof. intros r e []. Qed.

Lemma none_converged_snoc (h : list (row T)) (r : row T) (e : T) :
  none_converged tol h -> row_error r = Some e -> ltb e tol = false ->
  none_converged tol (h ++ [r]).
Proof.
  intros Hh Hr He r' e' Hin Hr'. apply in_app_or in Hin as [Hin|[<-|[]]].
  - eapply Hh; eauto.
  - congruence.
Qed.

Lemma none_converged_last (h : list (row T)) :
  none_converged tol h -> converged_is_last tol h.
Proof.
  intros Hh k r e Hk Hr He. apply nth_error_In in Hk.
  rewrite (Hh _ _ Hk Hr) in He. discriminate.
Qed.

Lemma none_converged_snoc_last (h : list (row T)) (r : row T) :
  none_converged tol h -> converged_is_last tol (h ++ [r]).
Proof.
  intros Hh k r' e Hk Hr He.
  rewrite length_app. simpl.
  destruct (Nat.lt_ge_cases k (length h)) as [Hlt|Hge].
  - rewrite nth_error_app1 in Hk by exact Hlt.
    apply nth_error_In in Hk. rewrite (Hh _ _ Hk Hr) in He. discriminate.
  - assert (Hsome : nth_error (h ++ [r]) k <> None) by congruence.
    apply nth_error_Some in Hsome. rewrite length_app in Hsome. simpl in Hsome.
    lia.
Qed.

Variable body : Z -> S -> result (ctl S).
Hypothesis body_appends : forall i st c, body i st = Ok c -> appends_one hist tol st c.

Lemma history_loop (n : nat) (st st' : S) :
  hist st = [] ->
  for_range body n 0 st = Ok st' ->
  (length (hist st') <= n)%nat /\ converged_is_last tol (hist st').
Proof.
  intros Hnil Hrun.
  pose (I := fun (i : Z) (s : S) =>
               none_converged tol (hist s) /\ Z.of_nat (length (hist s)) = i).
  pose (R := fun (j : Z) (s : S) =>
               converged_is_last tol (hist s) /\ Z.of_nat (length (hist s)) <= j).
  destruct (for_range_invariant body I R) with (n := n) (i := 0) (st := st) (st' := st')
    as [j [Hj [Hlast Hlen]]]; try assumption.
  - unfold I. intros i s s' [Hnc Hl] Hb. apply body_appends in Hb.
    destruct Hb as [r [e [Hh [Hr He]]]]. split.
    + rewrite Hh. eapply none_converged_snoc; eauto.
    + rewrite Hh, length_app. simpl. lia.
  - unfold I, R. intros i s s' [Hnc Hl] Hb. apply body_appends in Hb.
    destruct Hb as [Hh|[r Hh]]; rewrite Hh; split.
    + apply none_converged_last; exact Hnc.
    + lia.
    + apply none_converged_snoc_last; exact Hnc.
    + rewrite length_app. simpl. lia.
  - unfold I, R. intros i s [Hnc Hl].
    split; [apply none_converged_last; exact Hnc | lia].
  - unfold I. rewrite Hnil. split; [apply none_converged_nil | reflexivity].
  - unfold R in *. split; [lia | exact Hlast].
Qed.
End HistoryLoop.

(** ** The three loop bodies *)

Section Bodies.
Context {T : Type} {A : Arith T}.
Variables (func deriv : T -> T) (tol : T).

Local Open Scope Z_scope.

Lemma newton_body_appends (i : Z) (st : newton_locals) (c : ctl newton_locals) :
  newton_body func deriv tol i st = Ok c -> appends_one nr_history tol st c.
Proof.
  unfold newton_body.
  destruct (ltb (abs (deriv (nr_x_curr st))) eps).
  - intros [= <-]. left. reflexivity.
  - destruct (div (func (nr_x_curr st)) (deriv (nr_x_curr st))) as [q|e]; simpl;
      [|discriminate].
    destruct (ltb (abs (sub (sub (nr_x_curr st) q) (nr_x_curr st))) tol) eqn:E;
      intros [= <-]; simpl.
    + right. eexists. reflexivity.
    + eexists. eexists. repeat split. exact E.
Qed.

Lemma secant_body_appends (i : Z) (st : secant_locals) (c : ctl secant_locals) :
  secant_body func tol i st = Ok c -> appends_one sc_history tol st c.
Proof.
  unfold secant_body.
  destruct (ltb (abs (sub (func (sc_x_curr st)) (func (sc_x_prev st)))) eps).
  - intros [= <-]. left. reflexivity.
  - destruct (div (sub (sc_x_curr st) (sc_x_prev st))
                  (sub (func (sc_x_curr st)) (func (sc_x_prev st)))) as [q|e];
      simpl; [|discriminate].
    match goal with |- context [ltb ?e tol] => destruct (ltb e tol) eqn:E end;
      intros [= <-]; simpl.
    + right. eexists. reflexivity.
    + eexists. eexists. repeat split. exact E.
Qed.

Lemma fp_body_appends (i : Z) (st : fp_locals) (c : ctl fp_locals) :
  fp_body func tol i st = Ok c -> appends_one fp_history tol st c.
Proof.
  unfold fp_body.
  destruct (div (sub (fp_b st) (fp_a st)) (sub (func (fp_b st)) (func (fp_a st))))
    as [q|e]; simpl; [|discriminate].
  match goal with |- context [ltb ?e tol] => destruct (ltb e tol) eqn:E end.
  - intros [= <-]. simpl. right. eexists. reflexivity.
  - match goal with |- context [ltb ?p zero] => destruct (ltb p zero) end;
      intros [= <-]; simpl; eexists; eexists; repeat split; exact E.
Qed.

(** The bound on the length and the place of a converged row, for the frame
    each routine returns. *)
Lemma newton_trace (x0 : T) (max_iter : Z) :
  let rows := trace_of (newton_raphson func deriv x0 tol max_iter) in
  (length rows <= Z.to_nat max_iter)%nat /\ converged_is_last tol rows.
Proof.
  unfold newton_raphson.
  destruct (for_range _ _ _ _) as [st|e] eqn:Erun; simpl.
  - eapply history_loop with (hist := nr_history) in Erun;
      [exact Erun | apply newton_body_appends | reflexivity].
  - split; [lia | intros [|k] r e'; discriminate].
Qed.

Lemma secant_trace (x0 x1 : T) (max_iter : Z) :
  let rows := trace_of (secant_method func x0 x1 tol max_iter) in
  (length rows <= Z.to_nat max_iter)%nat /\ converged_is_last tol rows.
Proof.
  unfold secant_method.
  destruct (for_range _ _ _ _) as [st|e] eqn:Erun; simpl.
  - eapply history_loop with (hist := sc_history) in Erun;
      [exact Erun | apply secant_body_appends | reflexivity].
  - split; [lia | intros [|k] r e'; discriminate].
Qed.

Lemma fp_trace (a b : T) (max_iter : Z) :
  let rows := trace_of (false_position func a b tol max_iter) in
  (length rows <= Z.to_nat max_iter)%nat /\ converged_is_last tol rows.
Proof.
  unfold false_position.
  destruct (geb _ _); simpl.
  - split; [lia | intros [|k] r e'; discriminate].
  - destruct (for_range _ _ _ _) as [st|e] eqn:Erun; simpl.
    + eapply history_loop with (hist := fp_history) in Erun;
        [ | apply fp_body_appends | reflexivity].
      destruct (fp_c st); simpl; [exact Erun|].
      split; [lia | intros [|k] r e'; discriminate].
    + split; [lia | intros [|k] r e'; discriminate].
Qed.
End Bodies.

(** ** Invalid bracket, length of the trace, place of the converged row *)

Section TraceClaims.
Context {T : Type} {A : Arith T}.

Local Open Scope Z_scope.

(** C1.  When [f(a) * f(b) >= 0], [false_position] returns the pair
    [(None, None)]: no estimate, no frame, and so no recorded iteration,
    whatever [tol] and [max_iter] are. *)
Theorem false_position_invalid_bracket
    (func : T -> T) (a b tol : T) (max_iter : Z) :
  geb (mul (func a) (func b)) zero = true ->
  false_position func a b tol max_iter = Ok (PyNone, PyNone) /\
  trace_of (false_position func a b tol max_iter) = [].
Proof.
  intros Hinv. unfold false_position. rewrite Hinv. split; reflexivity.
Qed.

(** C3.  For [max_iter >= 1] the frame returned by each of the three
    routines has at most [max_iter] rows, for every function, start and
    tolerance. *)
Theorem trace_length_le_max_iter
    (func deriv : T -> T) (x0 x1 a b tol : T) (max_iter : Z) :
  1 <= max_iter ->
  Z.of_nat (length (trace_of (newton_raphson func deriv x0 tol max_iter))) <= max_iter /\
  Z.of_nat (length (trace_of (secant_method func x0 x1 tol max_iter))) <= max_iter /\
  Z.of_nat (length (trace_of (false_position func a b tol max_iter))) <= max_iter.
Proof.
  intros Hmax.
  pose proof (newton_trace func deriv tol x0 max_iter) as [Hn _].
  pose proof (secant_trace func tol x0 x1 max_iter) as [Hs _].
  pose proof (fp_trace func tol a b max_iter) as [Hf _].
  repeat split; lia.
Qed.

(** C4.  In the frame returned by any of the three routines, a row whose
    [Error] is below [tol] is the last row: its 1-based index is the length of
    the frame, so it is the only such row and nothing was recorded after it. *)
Theorem converged_row_is_last
    (func deriv : T -> T) (x0 x1 a b tol : T) (max_iter : Z)
    (out : result (obj T * obj T)) :
  out = newton_raphson func deriv x0 tol max_iter \/
  out = secant_method func x0 x1 tol max_iter \/
  out = false_position func a b tol max_iter ->
  forall (k : nat) (r : row T) (e : T),
    nth_error (trace_of out) k = Some r ->
    row_error r = Some e ->
    ltb e tol = true ->
    Datatypes.S k = length (trace_of out).
Proof.
  intros [-> | [-> | ->]].
  - apply (newton_trace func deriv tol x0 max_iter).
  - apply (secant_trace func tol x0 x1 max_iter).
  - apply (fp_trace func tol a b max_iter).
Qed.
End TraceClaims.

Module TraceWitnesses.
Import Inputs FloatArith RatArith.

Lemma false_position_invalid_bracket_witness :
  false_position float_square 1%float 2%float tol_default 50 = Ok (PyNone, PyNone) /\
  trace_of (false_position float_square 1%float 2%float tol_default 50) = [].
Proof.
  apply (@false_position_invalid_bracket float float_arith
           float_square 1%float 2%float tol_default 50%Z).
  vm_compute. reflexivity.
Defined.

Lemma trace_length_le_max_iter_witness :
  (Z.of_nat (length (trace_of (newton_raphson Q_ident Q_one 1%Q tol_default 50))) <= 50 /\
   Z.of_nat (length (trace_of (secant_method Q_ident 1%Q 0%Q tol_default 50))) <= 50 /\
   Z.of_nat (length (trace_of (false_position Q_ident (-1)%Q 1%Q tol_default 50))) <= 50)%Z.
Proof.
  apply (@trace_length_le_max_iter Q Q_arith
           Q_ident Q_one 1%Q 0%Q (-1)%Q 1%Q tol_default 50%Z).
  lia.
Defined.

Lemma converged_row_is_last_witness :
  2%nat = length (trace_of (newton_raphson Q_ident Q_one 1%Q tol_default 50)).
Proof.
  eapply (@converged_row_is_last Q Q_arith
            Q_ident Q_one 1%Q 0%Q (-1)%Q 1%Q tol_default 50%Z) with (k := 1%nat).
  - left. reflexivity.
  - vm_compute. reflexivity.
  - vm_compute. reflexivity.
  - vm_compute. reflexivity.
Defined.
End TraceWitnesses.

(** ** The guards of [newton_raphson] and [secant_method] *)

Section Totality.
Variable S : Type.
Variable body : Z -> S -> result (ctl S).

Lemma for_range_returns :
  (forall i st, exists c, body i st = Ok c) ->
  forall n i st, exists st', for_range body n i st = Ok st'.
Proof.
  intros Hbody. induction n as [|n IH]; intros i st; simpl.
  - eauto.
  - destruct (Hbody i st) as [[s|s] ->]; eauto.
Qed.

Lemma for_range_returns_under (I : S -> Prop) :
  (forall i st, I st ->
     exists c, body i st = Ok c /\
               match c with Continue st' => I st' | Break _ => True end) ->
  forall n i st, I st -> exists st', for_range body n i st = Ok st'.
Proof.
  intros Hbody. induction n as [|n IH]; intros i st Hst; simpl.
  - eauto.
  - destruct (Hbody i st Hst) as [[s|s] [-> Hpost]]; eauto.
Qed.

Lemma for_range_break_at_head (n : nat) (k : nat) (st s : S) :
  nth_error (loop_heads body n 0 st) k = Some s ->
  (k < n)%nat ->
  body (0 + Z.of_nat k) s = Ok (Break s) ->
  for_range body n 0 st = Ok s.
Proof.
  intros Hk Hlt Hb.
  rewrite (for_range_from_head body n 0 st k Hk).
  destruct (n - k)%nat as [|m] eqn:E; [lia|].
  cbn [for_range]. rewrite Hb. reflexivity.
Qed.
End Totality.

Section GuardClaims.
Context {T : Type} {A : Arith T}.

Local Open Scope Z_scope.

Lemma newton_body_guard (func deriv : T -> T) (tol : T) (i : Z) (st : newton_locals) :
  ltb (abs (deriv (nr_x_curr st))) eps = true ->
  newton_body func deriv tol i st = Ok (Break st).
Proof. intros Hg. unfold newton_body. rewrite Hg. reflexivity. Qed.


(** C6.  At whichever step of [newton_raphson] the derivative at [x_curr] is
    below [1e-12] in absolute value, the body breaks before its division
    (whatever that division would do), and the call returns that [x_curr] with
    the rows recorded so far; at the first step these are [x0] and no row. *)
Theorem newton_singular_derivative_stops
    (func deriv : T -> T) (x0 tol : T) (max_iter : Z) :
  (forall (i : Z) (st : newton_locals),
      ltb (abs (deriv (nr_x_curr st))) eps = true ->
      newton_body func deriv tol i st = Ok (Break st)) /\
  (forall (k : nat) (st : newton_locals),
      nth_error (loop_heads (newton_body func deriv tol) (Z.to_nat max_iter) 0
                   {| nr_history := []; nr_x_curr := x0 |}) k = Some st ->
      (k < Z.to_nat max_iter)%nat ->
      ltb (abs (deriv (nr_x_curr st))) eps = true ->
      newton_raphson func deriv x0 tol max_iter
      = Ok (PyNum (nr_x_curr st), DataFrame (nr_history st))) /\
  (ltb (abs (deriv x0)) eps = true ->
   newton_raphson func deriv x0 tol max_iter = Ok (PyNum x0, DataFrame [])).
Proof.
  split; [|split].
  - intros i st. apply newton_body_guard.
  - intros k st Hk Hlt Hg. unfold newton_raphson.
    rewrite (@for_range_break_at_head _ _ _ _ _ _ Hk Hlt); [reflexivity|].
    apply newton_body_guard. exact Hg.
  - intros Hg. unfold newton_raphson.
    destruct (Z.to_nat max_iter) as [|n]; simpl; [reflexivity|].
    rewrite newton_body_guard by exact Hg. reflexivity.
Qed.

Context {L : ArithLaws A}.

Lemma newton_body_returns (func deriv : T -> T) (tol : T) (i : Z) (st : newton_locals) :
  exists c, newton_body func deriv tol i st = Ok c.
Proof.
  unfold newton_body.
  destruct (ltb (abs (deriv (nr_x_curr st))) eps) eqn:Hg; [eauto|].
  destruct (div_guarded (func (nr_x_curr st)) _ Hg) as [q ->]. simpl.
  match goal with |- context [ltb ?e tol] => destruct (ltb e tol) end; eauto.
Qed.

Lemma secant_body_returns (func : T -> T) (tol : T) (i : Z) (st : secant_locals) :
  exists c, secant_body func tol i st = Ok c.
Proof.
  unfold secant_body.
  destruct (ltb (abs (sub (func (sc_x_curr st)) (func (sc_x_prev st)))) eps) eqn:Hg;
    [eauto|].
  destruct (div_guarded (sub (sc_x_curr st) (sc_x_prev st)) _ Hg) as [q ->]. simpl.
  match goal with |- context [ltb ?e tol] => destruct (ltb e tol) end; eauto.
Qed.



End GuardClaims.

Module GuardWitnesses.
Import Inputs FloatArith RatArith FloatLaws RatLaws.

Lemma newton_singular_derivative_stops_witness :
  newton_raphson Q_ident Q_zero 1%Q tol_default 50 = Ok (PyNum 1%Q, DataFrame []) /\
  exists st : newton_locals,
    nth_error (loop_heads (newton_body Q_square_plus_one Q_twice tol_default) 50 0
                 {| nr_history := []; nr_x_curr := 1%Q |}) 1 = Some st /\
    newton_raphson Q_square_plus_one Q_twice 1%Q tol_default 50
    = Ok (PyNum (nr_x_curr st), DataFrame (nr_history st)).
Proof.
  split.
  - apply (proj2 (proj2 (@newton_singular_derivative_stops Q Q_arith
                           Q_ident Q_zero 1%Q tol_default 50%Z))).
    reflexivity.
  - eexists. split.
    + vm_compute. reflexivity.
    + apply (proj1 (proj2 (@newton_singular_derivative_stops Q Q_arith
                             Q_square_plus_one Q_twice 1%Q tol_default 50%Z)))
        with (k := 1%nat).
      * vm_compute. reflexivity.
      * vm_compute. lia.
      * vm_compute. reflexivity.
Defined.



End GuardWitnesses.

(** ** The rows of [false_position] *)

Section FalsePositionTrace.
Context {T : Type} {A : Arith T}.
Variables (func : T -> T) (tol : T).

Local Open Scope Z_scope.

(** Whatever the loop appends from a loop head on is described by
    [fp_rows_from], and the local [c] ends as the root of the last row. *)
Lemma fp_loop_rows (n : nat) :
  forall (i : Z) (st st' : fp_locals),
    for_range (fp_body func tol) n i st = Ok st' ->
    exists rows : list (row T),
      fp_history st' = fp_history st ++ rows /\
      fp_rows_from func tol i (fp_a st) (fp_b st) (fp_c_old st) rows /\
      (rows = [] /\ st' = st /\ n = O \/
       exists r c, nth_error rows (length rows - 1) = Some r /\
                   get_num "root" r = Some c /\ fp_c st' = Some c).
Proof.
  induction n as [|n IH]; intros i st st' Hrun.
  - simpl in Hrun. injection Hrun as <-. exists [].
    rewrite app_nil_r. repeat split. left. repeat split.
  - cbn [for_range] in Hrun. unfold fp_body in Hrun.
    destruct (div (sub (fp_b st) (fp_a st)) (sub (func (fp_b st)) (func (fp_a st))))
      as [q|ex] eqn:Hq; simpl in Hrun; [|discriminate].
    set (c := sub (fp_b st) (mul (func (fp_b st)) q)) in *.
    set (error := abs (sub c (fp_c_old st))) in *.
    set (r := fp_row (i + 1) (fp_a st) (fp_b st) c (func c) error) in *.
    destruct (ltb error tol) eqn:Herr.
    + injection Hrun as <-. exists [r]. simpl. repeat split.
      * exists q. split; [exact Hq|]. split; [reflexivity | left; reflexivity].
      * right. exists r, c. repeat split.
    + assert (Hnext : exists st1,
                 for_range (fp_body func tol) n (i + 1) st1 = Ok st' /\
                 fp_history st1 = fp_history st ++ [r] /\
                 fp_a st1 = fst (fp_update func (fp_a st) (fp_b st) c) /\
                 fp_b st1 = snd (fp_update func (fp_a st) (fp_b st) c) /\
                 fp_c_old st1 = c /\ fp_c st1 = Some c).
      { unfold fp_update.
        destruct (ltb (mul (func (fp_a st)) (func c)) zero);
          eexists; (split; [exact Hrun|]); simpl; repeat split. }
      destruct Hnext as [st1 [Hrun1 [Hh [Ha [Hb [Hco Hc]]]]]].
      destruct (IH _ _ _ Hrun1) as [rows [Hrows [Hfrom Hlast]]].
      exists (r :: rows). split; [|split].
      * rewrite Hrows, Hh, <- app_assoc. reflexivity.
      * simpl. exists q. split; [exact Hq|]. split; [reflexivity|].
        right. split; [exact Herr|].
        rewrite Ha, Hb, Hco in Hfrom. exact Hfrom.
      * right. destruct Hlast as [[-> [-> _]] | [r' [c' [Hn [Hr' Hc']]]]].
        -- exists r, c. repeat split. exact Hc.
        -- exists r', c'. repeat split; [|exact Hr' | exact Hc'].
           destruct rows as [|r0 rows]; [destruct (length [] - 1)%nat; discriminate|].
           simpl in *. rewrite Nat.sub_0_r in *. exact Hn.
Qed.

(** The same description, row by row. *)
Lemma fp_rows_from_nth (rows : list (row T)) :
  forall (i : Z) (a b c_old : T),
    fp_rows_from func tol i a b c_old rows ->
    forall (k : nat) (r : row T),
      nth_error rows k = Some r ->
      exists a_k b_k c_prev q : T,
        div (sub b_k a_k) (sub (func b_k) (func a_k)) = Ok q /\
        let c := sub b_k (mul (func b_k) q) in
        r = fp_row (i + Z.of_nat k + 1) a_k b_k c (func c) (abs (sub c c_prev)) /\
        match k with
        | O => a_k = a /\ b_k = b /\ c_prev = c_old
        | Datatypes.S k' =>
            exists (r' : row T) (a' b' e' : T),
              nth_error rows k' = Some r' /\
              get_num "a" r' = Some a' /\ get_num "b" r' = Some b' /\
              get_num "root" r' = Some c_prev /\
              row_error r' = Some e' /\ ltb e' tol = false /\
              (a_k, b_k) = fp_update func a' b' c_prev
        end.
Proof.
  induction rows as [|r0 rest IH]; intros i a b c_old Hfrom k r Hk.
  - destruct k; discriminate.
  - simpl in Hfrom. destruct Hfrom as [q [Hq [Hr0 Hrest]]].
    destruct k as [|k].
    + injection Hk as <-. exists a, b, c_old, q.
      split; [exact Hq|]. rewrite Z.add_0_r. split; [exact Hr0 | repeat split].
    + simpl in Hk.
      destruct Hrest as [-> | [Herr Hrest]]; [destruct k; discriminate|].
      destruct (IH _ _ _ _ Hrest k r Hk) as [a_k [b_k [c_prev [q_k [Hqk [Hr Hlink]]]]]].
      exists a_k, b_k, c_prev, q_k. split; [exact Hqk|]. split.
      * rewrite Hr. f_equal. lia.
      * destruct k as [|k'].
        -- destruct Hlink as [-> [-> ->]].
           exists r0, a, b, (abs (sub (sub b (mul (func b) q)) c_old)).
           rewrite Hr0. repeat split; try reflexivity; try exact Herr.
           symmetry. apply surjective_pairing.
        -- destruct Hlink as [r' [a' [b' [e' Hl]]]].
           exists r', a', b', e'. exact Hl.
Qed.

(** C8.  With a valid bracket, row [k] of the frame that [false_position]
    returns holds the bracket [(a_k, b_k)] of its iteration, the chord point
    [c = b_k - f(b_k) * ((b_k - a_k) / (f(b_k) - f(a_k)))], [f(c)] and the
    error [|c - c_prev|].  For the first row the bracket is [(a, b)] and
    [c_prev] is [a]; for a later row [c_prev] is the root of the row before,
    whose error was not below [tol], and the bracket is that row's bracket
    updated.  The estimate returned is the root of the last row, so the last
    row is recorded before the test and shows the bracket it was computed
    from, not an updated one.

    The rows are recorded: a call that returns with [max_iter >= 1] returns
    a frame that starts with the row of [(a, b)].  The loop starts from
    [(a, b)] with [c_old = a] and an empty history, and an iteration whose
    division succeeds appends its row to the history of its loop head; if
    the row's error is below [tol] the call returns there, with the chord
    point, the rows so far and no update of the bracket; otherwise the next
    loop head holds the updated bracket and [c_old = c], and when that was
    the last iteration allowed the call returns the same. *)
Theorem fp_rows_record_chord (a b : T) (max_iter : Z) :
  geb (mul (func a) (func b)) zero = false ->
  let out := false_position func a b tol max_iter in
  let heads :=
    loop_heads (fp_body func tol) (Z.to_nat max_iter) 0 (fp_init a b) in
  (forall (k : nat) (r : row T),
      nth_error (trace_of out) k = Some r ->
      exists a_k b_k c_prev q : T,
        div (sub b_k a_k) (sub (func b_k) (func a_k)) = Ok q /\
        let c := sub b_k (mul (func b_k) q) in
        r = fp_row (Z.of_nat k + 1) a_k b_k c (func c) (abs (sub c c_prev)) /\
        match k with
        | O => a_k = a /\ b_k = b /\ c_prev = a
        | Datatypes.S k' =>
            exists (r' : row T) (a' b' e' : T),
              nth_error (trace_of out) k' = Some r' /\
              get_num "a" r' = Some a' /\ get_num "b" r' = Some b' /\
              get_num "root" r' = Some c_prev /\
              row_error r' = Some e' /\ ltb e' tol = false /\
              (a_k, b_k) = fp_update func a' b' c_prev
        end) /\
  (forall (c : T) (t : obj T),
      out = Ok (PyNum c, t) ->
      exists r : row T,
        nth_error (trace_of out) (length (trace_of out) - 1) = Some r /\
        get_num "root" r = Some c) /\
  (forall (e t : obj T),
      out = Ok (e, t) -> 1 <= max_iter ->
      exists (q c_last : T) (rest : list (row T)),
        div (sub b a) (sub (func b) (func a)) = Ok q /\
        let c := sub b (mul (func b) q) in
        e = PyNum c_last /\
        t = DataFrame (fp_row 1 a b c (func c) (abs (sub c a)) :: rest)) /\
  nth_error heads 0 = Some (fp_init a b) /\
  (forall (k : nat) (st : fp_locals) (q : T),
      nth_error heads k = Some st ->
      (k < Z.to_nat max_iter)%nat ->
      div (sub (fp_b st) (fp_a st)) (sub (func (fp_b st)) (func (fp_a st))) = Ok q ->
      let c := sub (fp_b st) (mul (func (fp_b st)) q) in
      let error := abs (sub c (fp_c_old st)) in
      let history :=
        fp_history st
        ++ [fp_row (Z.of_nat k + 1) (fp_a st) (fp_b st) c (func c) error] in
      if ltb error tol then
        out = Ok (PyNum c, DataFrame history)
      else
        exists st' : fp_locals,
          nth_error heads (Datatypes.S k) = Some st' /\
          fp_history st' = history /\
          (fp_a st', fp_b st') = fp_update func (fp_a st) (fp_b st) c /\
          fp_c_old st' = c /\
          (Datatypes.S k = Z.to_nat max_iter ->
           out = Ok (PyNum c, DataFrame history))).
Proof.
  intros Hvalid out heads.
  assert (Hold :
    (forall (k : nat) (r : row T),
      nth_error (trace_of out) k = Some r ->
      exists a_k b_k c_prev q : T,
        div (sub b_k a_k) (sub (func b_k) (func a_k)) = Ok q /\
        let c := sub b_k (mul (func b_k) q) in
        r = fp_row (Z.of_nat k + 1) a_k b_k c (func c) (abs (sub c c_prev)) /\
        match k with
        | O => a_k = a /\ b_k = b /\ c_prev = a
        | Datatypes.S k' =>
            exists (r' : row T) (a' b' e' : T),
              nth_error (trace_of out) k' = Some r' /\
              get_num "a" r' = Some a' /\ get_num "b" r' = Some b' /\
              get_num "root" r' = Some c_prev /\
              row_error r' = Some e' /\ ltb e' tol = false /\
              (a_k, b_k) = fp_update func a' b' c_prev
        end) /\
    (forall (c : T) (t : obj T),
      out = Ok (PyNum c, t) ->
      exists r : row T,
        nth_error (trace_of out) (length (trace_of out) - 1) = Some r /\
        get_num "root" r = Some c) /\
    (forall (e t : obj T),
      out = Ok (e, t) -> 1 <= max_iter ->
      exists (q c_last : T) (rest : list (row T)),
        div (sub b a) (sub (func b) (func a)) = Ok q /\
        let c := sub b (mul (func b) q) in
        e = PyNum c_last /\
        t = DataFrame (fp_row 1 a b c (func c) (abs (sub c a)) :: rest))).
  { subst out. unfold false_position. rewrite Hvalid.
    destruct (for_range (fp_body func tol) (Z.to_nat max_iter) 0 (fp_init a b))
      as [st|ex] eqn:Hrun; simpl.
    - destruct (fp_loop_rows _ _ _ Hrun) as [rows [Hrows [Hfrom Hlast]]].
      simpl in Hrows, Hfrom.
      destruct Hlast as [[-> [-> Hn]] | [r [c [Hn [Hr Hc]]]]].
      + simpl. split; [intros [|k] r'; discriminate|].
        split; [discriminate|]. intros e t _ Hmax. lia.
      + rewrite Hc. simpl. rewrite Hrows. split; [|split].
        * intros k r' Hk. exact (@fp_rows_from_nth rows 0 a b a Hfrom k r' Hk).
        * intros c' t [= <- _]. exists r. split; assumption.
        * intros e t [= <- <-] _.
          destruct rows as [|r0 rest]; [simpl in Hn; discriminate|].
          simpl in Hfrom. destruct Hfrom as [q [Hq [Hr0 _]]].
          exists q, c, rest. split; [exact Hq|]. split; [reflexivity|].
          rewrite Hr0. reflexivity.
    - split; [intros [|k] r'; discriminate|]. split; discriminate. }
  destruct Hold as [H1 [H2 H3]].
  split; [exact H1|]. split; [exact H2|]. split; [exact H3|].
  split.
  { subst heads. destruct (Z.to_nat max_iter); reflexivity. }
  intros k st q Hk Hlt Hq c error history.
  assert (Hout : forall s : fp_locals,
             for_range (fp_body func tol) (Z.to_nat max_iter) 0 (fp_init a b) = Ok s ->
             fp_c s = Some c -> fp_history s = history ->
             out = Ok (PyNum c, DataFrame history)).
  { intros s Hrun Hc Hh. subst out. unfold false_position.
    rewrite Hvalid, Hrun. cbn [bind]. rewrite Hc, Hh. reflexivity. }
  pose proof (for_range_from_head (fp_body func tol) (Z.to_nat max_iter) 0
                (fp_init a b) k Hk) as Hfrom.
  assert (Hbody :
    fp_body func tol (0 + Z.of_nat k) st
    = Ok (if ltb error tol then
            Break {| fp_history := history; fp_a := fp_a st; fp_b := fp_b st;
                     fp_c_old := fp_c_old st; fp_c := Some c |}
          else if ltb (mul (func (fp_a st)) (func c)) zero then
            Continue {| fp_history := history; fp_a := fp_a st; fp_b := c;
                        fp_c_old := c; fp_c := Some c |}
          else
            Continue {| fp_history := history; fp_a := c; fp_b := fp_b st;
                        fp_c_old := c; fp_c := Some c |})).
  { unfold fp_body. rewrite Hq. cbn [bind]. fold c. fold error.
    cbn [Z.add]. fold history.
    destruct (ltb error tol); [reflexivity|].
    destruct (ltb (mul (func (fp_a st)) (func c)) zero); reflexivity. }
  destruct (ltb error tol) eqn:Herr.
  - apply Hout with (s := {| fp_history := history; fp_a := fp_a st; fp_b := fp_b st;
                             fp_c_old := fp_c_old st; fp_c := Some c |});
      [|reflexivity|reflexivity].
    rewrite Hfrom.
    destruct (Z.to_nat max_iter - k)%nat as [|m] eqn:E; [lia|].
    cbn [for_range]. rewrite Hbody. reflexivity.
  - set (st' := if ltb (mul (func (fp_a st)) (func c)) zero then
                  {| fp_history := history; fp_a := fp_a st; fp_b := c;
                     fp_c_old := c; fp_c := Some c |}
                else
                  {| fp_history := history; fp_a := c; fp_b := fp_b st;
                     fp_c_old := c; fp_c := Some c |}).
    assert (Hcont : fp_body func tol (0 + Z.of_nat k) st = Ok (Continue st')).
    { rewrite Hbody. subst st'.
      destruct (ltb (mul (func (fp_a st)) (func c)) zero); reflexivity. }
    pose proof (@loop_heads_next _ (fp_body func tol) (Z.to_nat max_iter) 0
                  (fp_init a b) k st st' Hk Hlt Hcont) as Hnext.
    exists st'. split; [exact Hnext|].
    assert (Hshape : fp_history st' = history /\
                     (fp_a st', fp_b st') = fp_update func (fp_a st) (fp_b st) c /\
                     fp_c_old st' = c /\ fp_c st' = Some c).
    { subst st'. unfold fp_update.
      destruct (ltb (mul (func (fp_a st)) (func c)) zero); repeat split. }
    destruct Hshape as [Hh [Hu [Hco Hc]]].
    split; [exact Hh|]. split; [exact Hu|]. split; [exact Hco|].
    intros Hend. apply Hout with (s := st'); [|exact Hc|exact Hh].
    rewrite (for_range_from_head (fp_body func tol) (Z.to_nat max_iter) 0
               (fp_init a b) (Datatypes.S k) Hnext).
    rewrite Hend, Nat.sub_diag. reflexivity.
Qed.
End FalsePositionTrace.

Module FalsePositionWitnesses.
Import Inputs RatArith.

Lemma fp_rows_record_chord_witness :
  let func := Q_square_minus_two in
  let tol : Q := tol_default in
  let a := 1%Q in
  let b := 2%Q in
  let max_iter := 3%Z in
  let out := false_position func a b tol max_iter in
  let heads :=
    loop_heads (fp_body func tol) (Z.to_nat max_iter) 0 (fp_init a b) in
  (forall (k : nat) (r : row Q),
      nth_error (trace_of out) k = Some r ->
      exists a_k b_k c_prev q : Q,
        div (sub b_k a_k) (sub (func b_k) (func a_k)) = Ok q /\
        let c := sub b_k (mul (func b_k) q) in
        r = fp_row (Z.of_nat k + 1) a_k b_k c (func c) (abs (sub c c_prev)) /\
        match k with
        | O => a_k = a /\ b_k = b /\ c_prev = a
        | Datatypes.S k' =>
            exists (r' : row Q) (a' b' e' : Q),
              nth_error (trace_of out) k' = Some r' /\
              get_num "a" r' = Some a' /\ get_num "b" r' = Some b' /\
              get_num "root" r' = Some c_prev /\
              row_error r' = Some e' /\ ltb e' tol = false /\
              (a_k, b_k) = fp_update func a' b' c_prev
        end) /\
  (forall (c : Q) (t : obj Q),
      out = Ok (PyNum c, t) ->
      exists r : row Q,
        nth_error (trace_of out) (length (trace_of out) - 1) = Some r /\
        get_num "root" r = Some c) /\
  (forall (e t : obj Q),
      out = Ok (e, t) -> (1 <= max_iter)%Z ->
      exists (q c_last : Q) (rest : list (row Q)),
        div (sub b a) (sub (func b) (func a)) = Ok q /\
        let c := sub b (mul (func b) q) in
        e = PyNum c_last /\
        t = DataFrame (fp_row 1 a b c (func c) (abs (sub c a)) :: rest)) /\
  nth_error heads 0 = Some (fp_init a b) /\
  (forall (k : nat) (st : fp_locals) (q : Q),
      nth_error heads k = Some st ->
      (k < Z.to_nat max_iter)%nat ->
      div (sub (fp_b st) (fp_a st)) (sub (func (fp_b st)) (func (fp_a st))) = Ok q ->
      let c := sub (fp_b st) (mul (func (fp_b st)) q) in
      let error := abs (sub c (fp_c_old st)) in
      let history :=
        fp_history st
        ++ [fp_row (Z.of_nat k + 1) (fp_a st) (fp_b st) c (func c) error] in
      if ltb error tol then
        out = Ok (PyNum c, DataFrame history)
      else
        exists st' : fp_locals,
          nth_error heads (Datatypes.S k) = Some st' /\
          fp_history st' = history /\
          (fp_a st', fp_b st') = fp_update func (fp_a st) (fp_b st) c /\
          fp_c_old st' = c /\
          (Datatypes.S k = Z.to_nat max_iter ->
           out = Ok (PyNum c, DataFrame history))).
Proof.
  intros func tol a b max_iter.
  apply (@fp_rows_record_chord Q Q_arith func tol a b max_iter).
  reflexivity.
Defined.
End FalsePositionWitnesses.

(** ** The signs at the ends of the bracket *)

Section BracketSigns.
Context {T : Type} {A : Arith T} {L : SignLaws A}.
Variables (func : T -> T) (tol : T).
Local Open Scope Z_scope.

Lemma opposite_same (x y z : T) :
  opposite_signs x y -> same_sign x z -> opposite_signs z y.
Proof.
  intros [[Hx Hy] | [Hx Hy]] [[Hx' Hz] | [Hx' Hz]].
  - left. split; assumption.
  - destruct (not_both_signs _ Hx Hx').
  - destruct (not_both_signs _ Hx' Hx).
  - right. split; assumption.
Qed.

(** One bracket update. *)
Lemma fp_body_signs (i : Z) (st st' : fp_locals) :
  fp_body func tol i st = Ok (Continue st') ->
  let c := fp_c_old st' in
  let p := mul (func (fp_a st)) (func c) in
  (fp_a st', fp_b st') = fp_update func (fp_a st) (fp_b st) c /\
  (opposite_signs (func (fp_a st)) (func (fp_b st)) ->
   opposite_signs (func (fp_a st')) (func (fp_b st')) \/
   ltb p zero = false /\ ltb zero p = false /\
   fp_a st' = c /\ fp_b st' = fp_b st).
Proof.
  unfold fp_body.
  destruct (div (sub (fp_b st) (fp_a st)) (sub (func (fp_b st)) (func (fp_a st))))
    as [q|ex]; cbn [bind]; [|discriminate].
  set (c := sub (fp_b st) (mul (func (fp_b st)) q)).
  destruct (ltb (abs (sub c (fp_c_old st))) tol); [discriminate|].
  unfold fp_update.
  destruct (ltb (mul (func (fp_a st)) (func c)) zero) eqn:Hneg;
    intros [= <-]; cbn [fp_a fp_b fp_c_old]; fold c; rewrite Hneg;
    (split; [reflexivity|]); intros Hopp.
  - left. apply mul_neg_signs. exact Hneg.
  - destruct (ltb zero (mul (func (fp_a st)) (func c))) eqn:Hpos.
    + left. apply opposite_same with (x := func (fp_a st)); [exact Hopp|].
      apply mul_pos_signs. exact Hpos.
    + right. repeat split.
Qed.

(** C2, as amended.  With [f(a) * f(b) < 0] at the start, [f(a)] and [f(b)]
    have strictly opposite signs before the first update; every bracket
    update that starts from a bracket with opposite signs leaves one, unless
    the product [f(a) * f(c)] it tested is neither negative nor positive
    (zero, by an exact root at [c] or by underflow, or NaN), and then the
    [else] branch has moved [a] to [c].  So the signs are opposite at every
    loop head up to the first update that tested such a product.  This holds
    in every arithmetic with the sign laws: binary64 and exact rationals. *)
Theorem bracket_signs_kept_unless_product_vanishes
    (a b : T) (max_iter : Z) :
  ltb (mul (func a) (func b)) zero = true ->
  let heads :=
    loop_heads (fp_body func tol) (Z.to_nat max_iter) 0 (fp_init a b) in
  let tested (s s' : fp_locals) := mul (func (fp_a s)) (func (fp_c_old s')) in
  opposite_signs (func a) (func b) /\
  (forall (k : nat) (st st' : fp_locals),
      nth_error heads k = Some st ->
      nth_error heads (Datatypes.S k) = Some st' ->
      opposite_signs (func (fp_a st)) (func (fp_b st)) ->
      (fp_a st', fp_b st') = fp_update func (fp_a st) (fp_b st) (fp_c_old st') /\
      (opposite_signs (func (fp_a st')) (func (fp_b st')) \/
       ltb (tested st st') zero = false /\ ltb zero (tested st st') = false /\
       fp_a st' = fp_c_old st' /\ fp_b st' = fp_b st)) /\
  (forall (k : nat) (st : fp_locals),
      nth_error heads k = Some st ->
      (forall (j : nat) (s s' : fp_locals),
          (j < k)%nat ->
          nth_error heads j = Some s ->
          nth_error heads (Datatypes.S j) = Some s' ->
          ltb (tested s s') zero = true \/ ltb zero (tested s s') = true) ->
      opposite_signs (func (fp_a st)) (func (fp_b st))).
Proof.
  intros Hvalid heads tested.
  assert (H0 : opposite_signs (func a) (func b)) by (apply mul_neg_signs; exact Hvalid).
  assert (Hstep : forall (k : nat) (st st' : fp_locals),
             nth_error heads k = Some st ->
             nth_error heads (Datatypes.S k) = Some st' ->
             opposite_signs (func (fp_a st)) (func (fp_b st)) ->
             (fp_a st', fp_b st') = fp_update func (fp_a st) (fp_b st) (fp_c_old st') /\
             (opposite_signs (func (fp_a st')) (func (fp_b st')) \/
              ltb (tested st st') zero = false /\ ltb zero (tested st st') = false /\
              fp_a st' = fp_c_old st' /\ fp_b st' = fp_b st)).
  { intros k st st' Hk Hk' Hopp.
    pose proof (loop_heads_step _ _ _ _ _ Hk Hk') as Hb.
    destruct (fp_body_signs _ _ Hb) as [Hu Hs]. split; [exact Hu | exact (Hs Hopp)]. }
  split; [exact H0|]. split; [exact Hstep|].
  induction k as [|k IH]; intros st Hk Hall.
  - subst heads. destruct (Z.to_nat max_iter); simpl in Hk; injection Hk as <-; exact H0.
  - destruct (nth_error heads k) as [s|] eqn:Hs.
    + assert (Hopp : opposite_signs (func (fp_a s)) (func (fp_b s))).
      { apply IH; [reflexivity|]. intros j u u' Hj. apply Hall. lia. }
      destruct (Hstep k s st Hs Hk Hopp) as [_ [Hkeep | [Hn [Hp _]]]]; [exact Hkeep|].
      destruct (Hall k s st (Nat.lt_succ_diag_r k) Hs Hk) as [H | H];
        unfold tested in *; congruence.
    + exfalso. apply nth_error_None in Hs.
      assert (Hsome : nth_error heads (Datatypes.S k) <> None) by congruence.
      apply nth_error_Some in Hsome. lia.
Qed.
End BracketSigns.

Module SignWitnesses.
Import Inputs FloatArith RatArith FloatSigns RatSigns.
Local Open Scope Z_scope.
Local Open Scope string_scope.
Local Open Scope list_scope.

(** On the floats it is the signs that are kept, not the sign of the rounded
    product: after the first update of [float_far] on [-2**600, 1.0], whose
    tested product is positive, [f(a)] and [f(b)] have opposite signs and
    their product underflows to [-0.0]. *)
Lemma kept_signs_product_underflows :
  exists st st' : fp_locals,
    nth_error (loop_heads (fp_body float_far tol_default) 50 0
                 (fp_init (-0x1p600)%float 1%float)) 0 = Some st /\
    nth_error (loop_heads (fp_body float_far tol_default) 50 0
                 (fp_init (-0x1p600)%float 1%float)) 1 = Some st' /\
    ltb (mul (float_far (fp_a st)) (float_far (fp_b st))) zero = true /\
    ltb zero (mul (float_far (fp_a st)) (float_far (fp_c_old st'))) = true /\
    opposite_signs (float_far (fp_a st')) (float_far (fp_b st')) /\
    ltb (mul (float_far (fp_a st')) (float_far (fp_b st'))) zero = false.
Proof.
  eexists. eexists. split; [vm_compute; reflexivity|].
  split; [vm_compute; reflexivity|].
  split; [vm_compute; reflexivity|]. split; [vm_compute; reflexivity|].
  split; [left; split; vm_compute; reflexivity | vm_compute; reflexivity].
Qed.

Lemma bracket_signs_kept_unless_product_vanishes_witness :
  (exists st st' : fp_locals,
      nth_error (loop_heads (fp_body float_far tol_default) 50 0
                   (fp_init (-0x1p600)%float 1%float)) 0 = Some st /\
      nth_error (loop_heads (fp_body float_far tol_default) 50 0
                   (fp_init (-0x1p600)%float 1%float)) 1 = Some st' /\
      (fp_a st', fp_b st')
      = fp_update float_far (fp_a st) (fp_b st) (fp_c_old st') /\
      (opposite_signs (float_far (fp_a st')) (float_far (fp_b st')) \/
       ltb (mul (float_far (fp_a st)) (float_far (fp_c_old st'))) zero = false /\
       ltb zero (mul (float_far (fp_a st)) (float_far (fp_c_old st'))) = false /\
       fp_a st' = fp_c_old st' /\ fp_b st' = fp_b st)) /\
  (exists st : fp_locals,
      nth_error (loop_heads (fp_body Q_square_minus_two tol_default) 3 0
                   (fp_init 1%Q 2%Q)) 2 = Some st /\
      opposite_signs (Q_square_minus_two (fp_a st)) (Q_square_minus_two (fp_b st))).
Proof.
  split.
  - eexists. eexists. split; [vm_compute; reflexivity|].
    split; [vm_compute; reflexivity|].
    apply (proj1 (proj2 (@bracket_signs_kept_unless_product_vanishes
                           float float_arith float_signs float_far tol_default
                           (-0x1p600)%float 1%float 50%Z eq_refl)) 0%nat).
    + vm_compute. reflexivity.
    + vm_compute. reflexivity.
    + left. split; vm_compute; reflexivity.
  - eexists. split; [vm_compute; reflexivity|].
    apply (proj2 (proj2 (@bracket_signs_kept_unless_product_vanishes
                           Q Q_arith Q_signs Q_square_minus_two tol_default
                           1%Q 2%Q 3%Z eq_refl)) 2%nat).
    + vm_compute. reflexivity.
    + intros j s s' Hj Hs Hs'.
      destruct j as [|[|j]]; [| |lia];
        vm_compute in Hs; vm_compute in Hs';
        injection Hs as <-; injection Hs' as <-; vm_compute; auto.
Defined.
End SignWitnesses.

(** ** The bracket of [false_position] *)

Module ExactBracketFacts.
Import RatArith RatLaws ExactBracket.
Local Open Scope Q_scope.

Lemma sign_transfer (x y z : Q) : x * y < 0 -> 0 <= x * z -> ~ z == 0 -> z * y < 0.
Proof.
  intros Hxy Hxz Hz.
  destruct (Q_dec z 0) as [[Hlt|Hgt]|Heq]; [| |contradiction];
    destruct (Q_dec x 0) as [[Hx|Hx]|Hx]; nra.
Qed.

Lemma strict_denominator (x y : Q) : x * y < 0 -> ~ y - x == 0.
Proof. intros H E. assert (Hyx : y == x) by lra. rewrite Hyx in H. nra. Qed.

Lemma strict_right_nonzero (x y : Q) : x * y < 0 -> ~ y == 0.
Proof. intros H E. rewrite E in H. lra. Qed.

Lemma chord_at_root (a b fa fb : Q) :
  fa == 0 -> ~ fb == 0 -> b - fb * ((b - a) / (fb - fa)) - a == 0.
Proof. intros Ha Hb. rewrite Ha. field. lra. Qed.

Lemma fp_body_exact (func : Q -> Q) (tol : Q) (i : Z) (st : fp_locals) :
  0 < tol ->
  strict func st \/ at_root func st ->
  exists c : ctl fp_locals,
    fp_body func tol i st = Ok c /\
    match c with
    | Break _ => True
    | Continue st' =>
        strict func st /\
        (strict func st' \/
         at_root func st' /\ fp_b st' = fp_b st /\ fp_c st' = Some (fp_a st'))
    end.
Proof.
  intros Htol [Hs | [Hfa [Hco Hfb]]]; unfold fp_body; cbv zeta;
    cbn [sub mul div abs ltb zero Q_arith].
  - unfold strict in Hs.
    rewrite Q_div_ok by exact (strict_denominator Hs).
    cbn [bind sub mul div abs ltb zero Q_arith].
    match goal with |- context [Q_ltb ?e tol] => destruct (Q_ltb e tol) end;
      [eexists; split; [reflexivity | exact I]|].
    match goal with |- context [Q_ltb ?p 0] => destruct (Q_ltb p 0) eqn:Hsign end;
      eexists; (split; [reflexivity|]); (split; [exact Hs|]).
    + left. unfold strict. cbn [fp_a fp_b]. apply Q_ltb_lt. exact Hsign.
    + apply Q_ltb_ge in Hsign. cbn [fp_a fp_b fp_c fp_c_old].
      match type of Hsign with context [func (fp_a st) * func ?c] => set (c0 := c) in * end.
      destruct (Qeq_dec (func c0) 0) as [Hz|Hnz].
      * right. unfold at_root. cbn [fp_a fp_b fp_c fp_c_old]. repeat split; try assumption.
        exact (strict_right_nonzero Hs).
      * left. unfold strict. cbn [fp_a fp_b]. eapply sign_transfer; eauto.
  - assert (Hden : ~ func (fp_b st) - func (fp_a st) == 0) by (rewrite Hfa; lra).
    rewrite Q_div_ok by exact Hden. cbn [bind sub mul div abs ltb zero Q_arith].
    rewrite Hco.
    match goal with |- context [Q_ltb (Qabs ?d) tol] =>
      assert (Herr : Q_ltb (Qabs d) tol = true)
    end.
    { apply Q_ltb_lt.
      rewrite (Qabs_wd _ _ (chord_at_root (fp_a st) (fp_b st) Hfa Hfb)).
      exact Htol. }
    rewrite Herr. eexists. split; [reflexivity | exact I].
Qed.

Lemma valid_bracket_iff (func : Q -> Q) (a b : Q) :
  @geb Q Q_arith (@mul Q Q_arith (func a) (func b)) (@zero Q Q_arith) = false <->
  func a * func b < 0.
Proof.
  cbn [geb mul zero Q_arith].
  rewrite <- Q_ltb_lt. unfold Q_ltb. rewrite negb_true_iff. tauto.
Qed.

Lemma exact_heads (func : Q -> Q) (a b tol : Q) (n : nat) :
  0 < tol ->
  func a * func b < 0 ->
  Forall (fun st => strict func st \/ at_root func st)
         (loop_heads (fp_body func tol) n 0 (fp_init a b)).
Proof.
  intros Htol Hv. apply loop_heads_invariant.
  - intros i st st' HJ Hb.
    destruct (@fp_body_exact func tol i st Htol HJ) as [c [Hc Hpost]].
    rewrite Hb in Hc. injection Hc as <-.
    destruct Hpost as [_ [Hs | [Hr _]]]; [left | right]; assumption.
  - left. exact Hv.
Qed.

(** X19.  In exact arithmetic, with [tol > 0] and a valid bracket,
    every bracket update starts from a bracket with [f(a) * f(b) < 0]; the
    bracket it leaves has [f(a) * f(b) < 0] again unless the chord point [c]
    is an exact root, in which case the [else] branch has moved [a] to [c]
    and [f(a) = 0]. *)
Theorem bracket_kept_unless_exact_root
    (func : Q -> Q) (a b tol : Q) (max_iter : Z) :
  0 < tol ->
  func a * func b < 0 ->
  forall (k : nat) (st st' : fp_locals),
    let heads := loop_heads (fp_body func tol) (Z.to_nat max_iter) 0 (fp_init a b) in
    nth_error heads k = Some st ->
    nth_error heads (Datatypes.S k) = Some st' ->
    func (fp_a st) * func (fp_b st) < 0 /\
    (func (fp_a st') * func (fp_b st') < 0 \/
     func (fp_a st') == 0 /\ fp_c st' = Some (fp_a st') /\ fp_b st' = fp_b st).
Proof.
  intros Htol Hv k st st' heads Hk Hk'.
  pose proof (@exact_heads func a b tol (Z.to_nat max_iter) Htol Hv) as HJ.
  rewrite Forall_forall in HJ. specialize (HJ st (nth_error_In _ _ Hk)).
  pose proof (@loop_heads_step _ _ _ _ _ _ _ _ Hk Hk') as Hb.
  destruct (@fp_body_exact func tol (0 + Z.of_nat k) st Htol HJ) as [c [Hc Hpost]].
  rewrite Hb in Hc. injection Hc as <-.
  destruct Hpost as [Hs [Hs' | [[Hz _] [Hbb Hcc]]]].
  - split; [exact Hs | left; exact Hs'].
  - split; [exact Hs | right; repeat split; assumption].
Qed.

(** X13.  In exact arithmetic, with [tol > 0] and [max_iter >= 1],
    [false_position] raises nothing: the division of every iteration has a
    non-zero divisor. *)
Theorem false_position_exact_returns
    (func : Q -> Q) (a b tol : Q) (max_iter : Z) :
  0 < tol -> (1 <= max_iter)%Z ->
  exists e t, false_position func a b tol max_iter = Ok (e, t).
Proof.
  intros Htol Hmax. unfold false_position.
  destruct (geb (mul (func a) (func b)) zero) eqn:Hv; [eauto|].
  apply valid_bracket_iff in Hv.
  destruct (@for_range_returns_under _ (fp_body func tol)
              (fun st => strict func st \/ at_root func st)) with
    (n := Z.to_nat max_iter) (i := 0%Z) (st := fp_init a b) as [st' Hrun].
  - intros i st HJ. destruct (@fp_body_exact func tol i st Htol HJ) as [c [Hc Hpost]].
    exists c. split; [exact Hc|]. destruct c as [s|s]; [|exact I].
    destruct Hpost as [_ [Hs | [Hr _]]]; [left | right]; assumption.
  - left. exact Hv.
  - rewrite Hrun. cbn [bind].
    destruct (@fp_loop_rows _ _ _ _ _ _ _ _ Hrun)
      as [rows [_ [_ [[_ [_ Hn]] | [r [c [_ [_ Hc]]]]]]]].
    + lia.
    + rewrite Hc. eauto.
Qed.
End ExactBracketFacts.

Module BracketExamples.
Import Inputs FloatArith RatArith ExactBracketFacts.

(** C2, as stated, fails.  Over the rationals, [lambda x: x] on [-1, 1]: the
    first chord point is the root [0], the [else] branch moves [a] there, and
    the next loop head has [f(a) * f(b) = 0].  Over the floats, [float_steps]
    on [-1.0, 1.0]: the product [f(a) * f(c)] underflows to [-0.0], the
    [else] branch moves [a] to a point where [f] is positive like [f(b)],
    and the next loop head has no sign change. *)
Lemma bracket_invariant_counterexample :
  (@geb Q RatArith.Q_arith (mul (Q_ident (-1)) (Q_ident 1)) zero = false /\
   exists st : fp_locals,
     nth_error (loop_heads (fp_body (A := RatArith.Q_arith) Q_ident tol_default) 50 0
                  (fp_init (-1)%Q 1%Q)) 1 = Some st /\
     ~ bracket_ok Q_ident st) /\
  (@geb float FloatArith.float_arith (mul (float_steps (-1)) (float_steps 1)) zero = false /\
   exists st : fp_locals,
     nth_error (loop_heads (fp_body (A := FloatArith.float_arith) float_steps tol_default) 50 0
                  (fp_init (-1)%float 1%float)) 1 = Some st /\
     ~ bracket_ok float_steps st).
Proof.
  split; (split; [vm_compute; reflexivity|]);
    eexists; (split; [vm_compute; reflexivity|]);
    unfold bracket_ok; vm_compute; discriminate.
Qed.

Lemma bracket_kept_unless_exact_root_witness :
  exists st st' : fp_locals,
    nth_error (loop_heads (fp_body Q_square_minus_two tol_default) 3 0
                 (fp_init 1%Q 2%Q)) 0 = Some st /\
    nth_error (loop_heads (fp_body Q_square_minus_two tol_default) 3 0
                 (fp_init 1%Q 2%Q)) 1 = Some st' /\
    (Q_square_minus_two (fp_a st) * Q_square_minus_two (fp_b st) < 0)%Q /\
    ((Q_square_minus_two (fp_a st') * Q_square_minus_two (fp_b st') < 0)%Q \/
     (Q_square_minus_two (fp_a st') == 0)%Q /\ fp_c st' = Some (fp_a st') /\
     fp_b st' = fp_b st).
Proof.
  eexists. eexists. split; [vm_compute; reflexivity|].
  split; [vm_compute; reflexivity|].
  apply (@bracket_kept_unless_exact_root Q_square_minus_two 1%Q 2%Q tol_default 3%Z)
    with (k := 0%nat).
  - reflexivity.
  - reflexivity.
  - vm_compute. reflexivity.
  - vm_compute. reflexivity.
Defined.

(** C5 fails on the floats.  [float_steps] is total and finite-valued and
    changes sign over [-1.0, 1.0]; with the default [tol] and [max_iter] the
    first two iterations lose the sign change by underflow and leave
    [f(a) = f(b)], and the third divides by [f(b) - f(a) = 0.0]. *)
Theorem false_position_divides_by_zero :
  @geb float FloatArith.float_arith
     (mul (float_steps (-1)) (float_steps 1)) zero = false /\
  (forall x : float, @finite float FloatArith.float_arith (float_steps x) = true) /\
  false_position (A := FloatArith.float_arith) float_steps (-1)%float 1%float tol_default 50
  = Raise ZeroDivisionError.
Proof.
  split; [vm_compute; reflexivity|]. split.
  - intros x. unfold float_steps.
    destruct (x <? -0.5)%float; [vm_compute; reflexivity|].
    destruct (x =? 0)%float; vm_compute; reflexivity.
  - vm_compute. reflexivity.
Qed.
End BracketExamples.

(** ** [false_position] on [x**5 + x - 1] over [0, 1] *)

Module QuinticRun.
Import Inputs FloatArith RatArith RatLaws QuinticCertificate.
Local Open Scope Q_scope.

Lemma quintic_expand (x : Q) : Q_quintic x == x * x * x * x * x + x - 1.
Proof. unfold Q_quintic. ring. Qed.

Lemma quintic_monotone (x y : Q) : 0 <= x -> x <= y -> Q_quintic x <= Q_quintic y.
Proof.
  intros Hx Hxy. rewrite !quintic_expand.
  assert (H2 : x * x <= y * y) by nra.
  assert (H4 : x * x * x * x <= y * y * y * y) by nra.
  assert (H5 : x * x * x * x * x <= y * y * y * y * y) by nra.
  lra.
Qed.

Lemma quintic_one : Q_quintic 1 == 1.
Proof. reflexivity. Qed.

Lemma quotient_le (n d n' d' : Q) :
  0 <= n -> n <= n' -> 0 < d' -> d' <= d -> n / d <= n' / d'.
Proof.
  intros Hn Hnn Hd' Hdd.
  assert (Hd : 0 < d) by lra.
  apply Qle_shift_div_l; [exact Hd'|].
  assert (E : n / d * d' == n * d' / d) by (field; lra). rewrite E.
  apply Qle_shift_div_r; [exact Hd|]. nra.
Qed.

Lemma chord_enclosed (lo hi lo' hi' a : Q) :
  enclosed lo hi lo' hi' = true ->
  lo <= a -> a <= hi ->
  Q_quintic a < 0 /\
  ~ Q_quintic 1 - Q_quintic a == 0 /\
  lo' <= 1 - Q_quintic 1 * ((1 - a) / (Q_quintic 1 - Q_quintic a)) /\
  1 - Q_quintic 1 * ((1 - a) / (Q_quintic 1 - Q_quintic a)) <= hi'.
Proof.
  unfold enclosed. rewrite !andb_true_iff, !Qle_bool_iff, Q_ltb_lt.
  intros [[[[[H0 Hlh] Hh1] Hfh] Hlo'] Hhi'] Hla Hah.
  assert (Hfa : Q_quintic a <= Q_quintic hi) by (apply quintic_monotone; lra).
  assert (Hfl : Q_quintic lo <= Q_quintic a) by (apply quintic_monotone; lra).
  rewrite quintic_one. unfold chord_lo, chord_hi in *.
  split; [lra|]. split; [lra|].
  assert (Hq1 : (1 - a) / (1 - Q_quintic a) <= (1 - lo) / (1 - Q_quintic hi))
    by (apply quotient_le; lra).
  assert (Hq2 : (1 - hi) / (1 - Q_quintic lo) <= (1 - a) / (1 - Q_quintic a))
    by (apply quotient_le; lra).
  split; lra.
Qed.

Lemma quintic_body_goes_on (tol : Q) (i : Z) (st : fp_locals) (lo hi lo' hi' : Q) :
  goes_on tol lo hi lo' hi' = true ->
  left_moving lo hi st ->
  exists (st' : fp_locals) (r : row Q),
    fp_body Q_quintic tol i st = Ok (Continue st') /\
    fp_history st' = fp_history st ++ [r] /\
    left_moving lo' hi' st'.
Proof.
  unfold goes_on. rewrite !andb_true_iff, !Qle_bool_iff, Q_ltb_lt.
  intros [[[Henc Htol] Hlo'] Hfh'] [Hb [Hco [Hla Hah]]].
  destruct (@chord_enclosed lo hi lo' hi' (fp_a st) Henc Hla Hah) as [Hfa [Hden [Hc1 Hc2]]].
  unfold fp_body. cbv zeta. cbn [sub mul div abs ltb zero Q_arith].
  rewrite Hb, Hco. rewrite Q_div_ok by exact Hden.
  cbn [bind sub mul div abs ltb zero Q_arith].
  set (c := 1 - Q_quintic 1 * ((1 - fp_a st) / (Q_quintic 1 - Q_quintic (fp_a st)))) in *.
  assert (Herr : Q_ltb (Qabs (c - fp_a st)) tol = false).
  { apply Q_ltb_ge. apply Qabs_case; intros Hsgn; lra. }
  rewrite Herr.
  assert (Hfc : Q_quintic c < 0).
  { apply Qle_lt_trans with (Q_quintic hi'); [apply quintic_monotone; lra | exact Hfh']. }
  assert (Hsign : Q_ltb (Q_quintic (fp_a st) * Q_quintic c) 0 = false).
  { apply Q_ltb_ge. nra. }
  rewrite Hsign.
  eexists. eexists. split; [reflexivity|]. split; [reflexivity|].
  unfold left_moving. cbn [fp_a fp_b fp_c_old]. repeat split; assumption.
Qed.

Lemma quintic_body_stops (tol : Q) (i : Z) (st : fp_locals) (lo hi lo' hi' : Q) :
  stops tol lo hi lo' hi' = true ->
  left_moving lo hi st ->
  exists (st' : fp_locals) (r : row Q) (e c : Q),
    fp_body Q_quintic tol i st = Ok (Break st') /\
    fp_history st' = fp_history st ++ [r] /\
    row_error r = Some e /\ e < tol /\
    fp_c st' = Some c /\ lo' <= c /\ c <= hi'.
Proof.
  unfold stops. rewrite !andb_true_iff, !Q_ltb_lt.
  intros [[Henc Ht1] Ht2] [Hb [Hco [Hla Hah]]].
  destruct (@chord_enclosed lo hi lo' hi' (fp_a st) Henc Hla Hah) as [Hfa [Hden [Hc1 Hc2]]].
  unfold fp_body. cbv zeta. cbn [sub mul div abs ltb zero Q_arith].
  rewrite Hb, Hco. rewrite Q_div_ok by exact Hden.
  cbn [bind sub mul div abs ltb zero Q_arith].
  set (c := 1 - Q_quintic 1 * ((1 - fp_a st) / (Q_quintic 1 - Q_quintic (fp_a st)))) in *.
  assert (Herr : Qabs (c - fp_a st) < tol).
  { apply Qabs_case; intros _; lra. }
  rewrite (proj2 (Q_ltb_lt _ _) Herr).
  eexists. eexists. exists (Qabs (c - fp_a st)), c.
  split; [reflexivity|]. cbn [fp_history fp_c].
  repeat split; assumption.
Qed.

Lemma quintic_table_certified :
  certified (@tol_default Q Q_arith) quintic_table 0 0 = true.
Proof. vm_compute. reflexivity. Qed.

Lemma certified_run (tol : Q) (table : list (Q * Q)) :
  forall (lo hi : Q) (n : nat) (i : Z) (st : fp_locals),
    certified tol table lo hi = true ->
    (length table <= n)%nat ->
    left_moving lo hi st ->
    exists (st' : fp_locals) (rows : list (row Q)) (r : row Q) (e c : Q),
      for_range (fp_body Q_quintic tol) n i st = Ok st' /\
      fp_history st' = fp_history st ++ rows /\
      length rows = length table /\
      nth_error rows (length rows - 1) = Some r /\
      row_error r = Some e /\ e < tol /\
      fp_c st' = Some c /\
      fst (last table (0, 0)) <= c /\ c <= snd (last table (0, 0)).
Proof.
  induction table as [|[lo' hi'] rest IH]; intros lo hi n i st Hcert Hlen Hst.
  - discriminate.
  - destruct n as [|n]; [simpl in Hlen; lia|].
    cbn [for_range]. cbn [certified] in Hcert.
    destruct rest as [|entry rest].
    + destruct (@quintic_body_stops tol i st lo hi lo' hi' Hcert Hst)
        as [st' [r [e [c [Hb [Hh [Hr [He [Hc [Hc1 Hc2]]]]]]]]]].
      rewrite Hb. exists st', [r], r, e, c. repeat split; assumption.
    + apply andb_true_iff in Hcert as [Hgo Hcert].
      destruct (@quintic_body_goes_on tol i st lo hi lo' hi' Hgo Hst)
        as [st1 [r1 [Hb [Hh Hst1]]]].
      rewrite Hb.
      destruct (IH lo' hi' n (i + 1)%Z st1 Hcert) as
        [st' [rows [r [e [c [Hrun [Hh' [Hl [Hn [Hr [He [Hc Hbounds]]]]]]]]]]]];
        [simpl in Hlen |- *; lia | exact Hst1 |].
      exists st', (r1 :: rows), r, e, c.
      split; [exact Hrun|]. split; [rewrite Hh', Hh, <- app_assoc; reflexivity|].
      split; [simpl; rewrite Hl; reflexivity|].
      split.
      { destruct rows as [|r0 rows]; [simpl in Hl; discriminate|].
        simpl in Hn |- *. rewrite Nat.sub_0_r in *. exact Hn. }
      repeat split; try assumption; apply Hbounds.
Qed.

(** X20.  In exact arithmetic, [false_position] on [x**5 + x - 1] over
    [0, 1] with the default [tol] and [max_iter] returns an estimate and a
    frame of fourteen rows, fewer than [max_iter = 50]; the error of the last
    row is below [tol], and the estimate is within [1e-6] of [0.754878]. *)
Theorem false_position_quintic_converges :
  exists (c : Q) (rows : list (row Q)) (r : row Q) (e : Q),
    false_position Q_quintic 0 1 tol_default 50 = Ok (PyNum c, DataFrame rows) /\
    length rows = 14%nat /\ (length rows <= 50)%nat /\
    nth_error rows (length rows - 1) = Some r /\
    row_error r = Some e /\ e < tol_default /\
    Qabs (c - (754878 # 1000000)) < 1 # 1000000.
Proof.
  destruct (@certified_run tol_default quintic_table 0 0 50 0%Z (fp_init 0 1)
              quintic_table_certified)
    as [st' [rows [r [e [c [Hrun [Hh [Hl [Hn [Hr [He [Hc [Hc1 Hc2]]]]]]]]]]]]].
  - vm_compute. lia.
  - unfold left_moving. cbn. repeat split; lra.
  - exists c, rows, r, e.
    unfold false_position.
    assert (Hv : geb (mul (Q_quintic 0) (Q_quintic 1)) zero = false) by reflexivity.
    rewrite Hv. change (Z.to_nat 50) with 50%nat.
    rewrite Hrun. cbn [bind]. rewrite Hc, Hh.
    split; [reflexivity|].
    split; [rewrite Hl; reflexivity|].
    split; [rewrite Hl; vm_compute; lia|].
    split; [exact Hn|]. split; [exact Hr|]. split; [exact He|].
    cbn [last quintic_table fst snd] in Hc1, Hc2.
    apply Qabs_case; intros _; lra.
Qed.
End QuinticRun.

(** * Further properties *)

(** ** Why a run ends *)

Section StopReasons.
Context {T : Type} {A : Arith T}.
Local Open Scope Z_scope.

Lemma last_snoc (h : list (row T)) (r : row T) :
  nth_error (h ++ [r]) (length (h ++ [r]) - 1) = Some r.
Proof.
  rewrite length_app. simpl.
  replace (length h + 1 - 1)%nat with (length h) by lia.
  rewrite nth_error_app2 by lia. rewrite Nat.sub_diag. reflexivity.
Qed.

Lemma newton_loop_stops (func deriv : T -> T) (tol : T) (n : nat) :
  forall (i : Z) (st st' : newton_locals),
    for_range (newton_body func deriv tol) n i st = Ok st' ->
    last_row_converged tol (nr_history st') \/
    ltb (abs (deriv (nr_x_curr st'))) eps = true \/
    length (nr_history st') = (length (nr_history st) + n)%nat.
Proof.
  induction n as [|n IH]; intros i st st' Hrun.
  - injection Hrun as <-. right. right. lia.
  - cbn [for_range] in Hrun. unfold newton_body in Hrun.
    destruct (ltb (abs (deriv (nr_x_curr st))) eps) eqn:Hg.
    + injection Hrun as <-. right. left. exact Hg.
    + destruct (div (func (nr_x_curr st)) (deriv (nr_x_curr st))) as [q|ex];
        cbn [bind] in Hrun; [|discriminate].
      match type of Hrun with context [ltb ?e tol] => destruct (ltb e tol) eqn:He end.
      * injection Hrun as <-. left. cbn [nr_history].
        eexists. eexists. split; [apply last_snoc|]. split; [reflexivity | exact He].
      * apply IH in Hrun. cbn [nr_history nr_x_curr] in Hrun.
        rewrite length_app in Hrun. simpl in Hrun.
        destruct Hrun as [Hc | [Hgd | Hl]]; [left | right; left | right; right];
          try assumption. lia.
Qed.

(** X1.  When [newton_raphson] returns, one of three things holds: the last
    row converged, the derivative guard holds at the returned estimate, or
    the frame has exactly [max_iter] rows. *)
Theorem newton_stop_reasons
    (func deriv : T -> T) (x0 tol : T) (max_iter : Z)
    (x : T) (rows : list (row T)) :
  0 <= max_iter ->
  newton_raphson func deriv x0 tol max_iter = Ok (PyNum x, DataFrame rows) ->
  last_row_converged tol rows \/
  ltb (abs (deriv x)) eps = true \/
  Z.of_nat (length rows) = max_iter.
Proof.
  intros Hmax. unfold newton_raphson.
  destruct (for_range _ _ _ _) as [st|ex] eqn:Hrun; cbn [bind]; [|discriminate].
  intros [= <- <-]. apply newton_loop_stops in Hrun. cbn [nr_history] in Hrun.
  destruct Hrun as [Hc | [Hg | Hl]]; [left | right; left | right; right];
    try assumption.
  rewrite Hl. simpl. lia.
Qed.

Lemma secant_loop_stops (func : T -> T) (tol : T) (n : nat) :
  forall (i : Z) (st st' : secant_locals),
    for_range (secant_body func tol) n i st = Ok st' ->
    last_row_converged tol (sc_history st') \/
    ltb (abs (sub (func (sc_x_curr st')) (func (sc_x_prev st')))) eps = true \/
    length (sc_history st') = (length (sc_history st) + n)%nat.
Proof.
  induction n as [|n IH]; intros i st st' Hrun.
  - injection Hrun as <-. right. right. lia.
  - cbn [for_range] in Hrun. unfold secant_body in Hrun.
    destruct (ltb (abs (sub (func (sc_x_curr st)) (func (sc_x_prev st)))) eps) eqn:Hg.
    + injection Hrun as <-. right. left. exact Hg.
    + destruct (div (sub (sc_x_curr st) (sc_x_prev st))
                    (sub (func (sc_x_curr st)) (func (sc_x_prev st)))) as [q|ex];
        cbn [bind] in Hrun; [|discriminate].
      match type of Hrun with context [ltb ?e tol] => destruct (ltb e tol) eqn:He end.
      * injection Hrun as <-. left. cbn [sc_history].
        eexists. eexists. split; [apply last_snoc|]. split; [reflexivity | exact He].
      * apply IH in Hrun. cbn [sc_history sc_x_curr sc_x_prev] in Hrun.
        rewrite length_app in Hrun. simpl in Hrun.
        destruct Hrun as [Hc | [Hgd | Hl]]; [left | right; left | right; right];
          try assumption. lia.
Qed.

Lemma fp_loop_stops (func : T -> T) (tol : T) (n : nat) :
  forall (i : Z) (st st' : fp_locals),
    for_range (fp_body func tol) n i st = Ok st' ->
    last_row_converged tol (fp_history st') \/
    length (fp_history st') = (length (fp_history st) + n)%nat.
Proof.
  induction n as [|n IH]; intros i st st' Hrun.
  - injection Hrun as <-. right. lia.
  - cbn [for_range] in Hrun. unfold fp_body in Hrun.
    destruct (div (sub (fp_b st) (fp_a st)) (sub (func (fp_b st)) (func (fp_a st))))
      as [q|ex]; cbn [bind] in Hrun; [|discriminate].
    match type of Hrun with context [ltb ?e tol] => destruct (ltb e tol) eqn:He end.
    + injection Hrun as <-. left. cbn [fp_history].
      eexists. eexists. split; [apply last_snoc|]. split; [reflexivity | exact He].
    + match type of Hrun with context [ltb ?p zero] => destruct (ltb p zero) end;
        apply IH in Hrun; cbn [fp_history] in Hrun;
        rewrite length_app in Hrun; simpl in Hrun;
        (destruct Hrun as [Hc | Hl]; [left; exact Hc | right; lia]).
Qed.

(** X3.  When [false_position] returns an estimate, its frame is not empty,
    and either the last row converged or the frame has exactly [max_iter]
    rows: nothing else ends its loop. *)
Theorem false_position_stop_reasons
    (func : T -> T) (a b tol : T) (max_iter : Z)
    (c : T) (rows : list (row T)) :
  false_position func a b tol max_iter = Ok (PyNum c, DataFrame rows) ->
  rows <> [] /\
  (last_row_converged tol rows \/ Z.of_nat (length rows) = max_iter).
Proof.
  unfold false_position.
  destruct (geb (mul (func a) (func b)) zero); [discriminate|].
  destruct (for_range _ _ _ _) as [st|ex] eqn:Hrun; cbn [bind]; [|discriminate].
  destruct (fp_c st) as [c'|] eqn:Hc; [|discriminate].
  intros [= <- <-].
  destruct (@fp_loop_rows _ _ _ _ _ _ _ _ Hrun) as [rows [Hrows [_ Hlast]]].
  cbn [fp_init fp_history app] in Hrows.
  assert (Hne : fp_history st <> []).
  { destruct Hlast as [[_ [-> _]] | [r [c0 [Hn _]]]]; [discriminate|].
    rewrite Hrows. intros ->. destruct (length [] - 1)%nat; discriminate. }
  split; [exact Hne|].
  destruct (@fp_loop_stops func tol _ _ _ _ Hrun) as [Hcv | Hl];
    [left; exact Hcv | right].
  cbn [fp_init fp_history length] in Hl.
  assert (Hpos : Z.to_nat max_iter <> 0%nat).
  { intros E. rewrite E in Hl. simpl in Hl.
    destruct (fp_history st); [contradiction | discriminate]. }
  rewrite Hl. simpl. lia.
Qed.
Lemma secant_loop_prev (func : T -> T) (tol : T) (n : nat) :
  forall (i : Z) (st st' : secant_locals),
    for_range (secant_body func tol) n i st = Ok st' ->
    st' = st \/
    exists r : row T,
      nth_error (sc_history st') (length (sc_history st') - 1) = Some r /\
      get_num "x_curr" r = Some (sc_x_prev st').
Proof.
  induction n as [|n IH]; intros i st st' Hrun.
  - injection Hrun as <-. left. reflexivity.
  - cbn [for_range] in Hrun. unfold secant_body in Hrun.
    destruct (ltb (abs (sub (func (sc_x_curr st)) (func (sc_x_prev st)))) eps).
    + injection Hrun as <-. left. reflexivity.
    + destruct (div (sub (sc_x_curr st) (sc_x_prev st))
                    (sub (func (sc_x_curr st)) (func (sc_x_prev st)))) as [q|ex];
        cbn [bind] in Hrun; [|discriminate].
      match type of Hrun with context [ltb ?e tol] => destruct (ltb e tol) end.
      * injection Hrun as <-. right. cbn [sc_history sc_x_prev].
        eexists. split; [apply last_snoc | reflexivity].
      * apply IH in Hrun. destruct Hrun as [-> | Hr]; [|right; exact Hr].
        right. cbn [sc_history sc_x_prev].
        eexists. split; [apply last_snoc | reflexivity].
Qed.

(** X2.  When [secant_method] returns, one of three things holds: the last
    row converged; the slope guard holds between the returned estimate and
    the point before it, which is the last row's [x_curr], or [x0] when no
    row was recorded; or the frame has exactly [max_iter] rows. *)
Theorem secant_stop_reasons
    (func : T -> T) (x0 x1 tol : T) (max_iter : Z)
    (x : T) (rows : list (row T)) :
  0 <= max_iter ->
  secant_method func x0 x1 tol max_iter = Ok (PyNum x, DataFrame rows) ->
  last_row_converged tol rows \/
  (exists x_prev : T,
      ltb (abs (sub (func x) (func x_prev))) eps = true /\
      (rows = [] /\ x_prev = x0 /\ x = x1 \/
       exists r : row T,
         nth_error rows (length rows - 1) = Some r /\
         get_num "x_curr" r = Some x_prev)) \/
  Z.of_nat (length rows) = max_iter.
Proof.
  intros Hmax. unfold secant_method.
  destruct (for_range _ _ _ _) as [st|ex] eqn:Hrun; cbn [bind]; [|discriminate].
  intros [= <- <-].
  pose proof (@secant_loop_stops func tol _ _ _ _ Hrun) as Hstop.
  pose proof (@secant_loop_prev func tol _ _ _ _ Hrun) as Hprev.
  cbn [sc_history] in Hstop.
  destruct Hstop as [Hc | [Hg | Hl]]; [left; exact Hc | right; left | right; right].
  - exists (sc_x_prev st). split; [exact Hg|].
    destruct Hprev as [-> | Hr]; [left; repeat split | right; exact Hr].
  - rewrite Hl. simpl. lia.
Qed.
End StopReasons.

Section Chains.
Context {T : Type} {A : Arith T}.
Local Open Scope Z_scope.

Lemma newton_loop_chain (func deriv : T -> T) (tol : T) (n : nat) :
  forall (i : Z) (st st' : newton_locals),
    for_range (newton_body func deriv tol) n i st = Ok st' ->
    exists (rows : list (row T)) (xs : list T),
      nr_history st' = nr_history st ++ rows /\
      length xs = Datatypes.S (length rows) /\
      nth_error xs 0 = Some (nr_x_curr st) /\
      nth_error xs (length rows) = Some (nr_x_curr st') /\
      forall (k : nat) (r : row T),
        nth_error rows k = Some r ->
        exists x_k x_next q : T,
          nth_error xs k = Some x_k /\
          nth_error xs (Datatypes.S k) = Some x_next /\
          ltb (abs (deriv x_k)) eps = false /\
          div (func x_k) (deriv x_k) = Ok q /\
          x_next = sub x_k q /\
          r = newton_row (i + Z.of_nat k + 1) x_k (func x_k) (abs (sub x_next x_k)).
Proof.
  induction n as [|n IH]; intros i st st' Hrun.
  - injection Hrun as <-. exists [], [nr_x_curr st]. rewrite app_nil_r.
    repeat split. intros [|k] r; discriminate.
  - cbn [for_range] in Hrun. unfold newton_body in Hrun.
    destruct (ltb (abs (deriv (nr_x_curr st))) eps) eqn:Hg.
    + injection Hrun as <-. exists [], [nr_x_curr st]. rewrite app_nil_r.
      repeat split. intros [|k] r; discriminate.
    + destruct (div (func (nr_x_curr st)) (deriv (nr_x_curr st))) as [q|ex] eqn:Hq;
        cbn [bind] in Hrun; [|discriminate].
      set (x := nr_x_curr st) in *. set (x' := sub x q) in *.
      set (r0 := newton_row (i + 1) x (func x) (abs (sub x' x))) in *.
      assert (Hfirst : forall r, Some r0 = Some r ->
                exists x_k x_next q0 : T,
                  Some x = Some x_k /\ Some x' = Some x_next /\
                  ltb (abs (deriv x_k)) eps = false /\
                  div (func x_k) (deriv x_k) = Ok q0 /\
                  x_next = sub x_k q0 /\
                  r = newton_row (i + Z.of_nat 0 + 1) x_k (func x_k) (abs (sub x_next x_k))).
      { intros r [= <-]. exists x, x', q. rewrite Z.add_0_r. repeat split; assumption. }
      match type of Hrun with context [ltb ?e tol] => destruct (ltb e tol) end.
      * injection Hrun as <-. exists [r0], [x; x']. cbn [nr_history nr_x_curr].
        repeat split. intros [|k] r Hk; [exact (Hfirst r Hk)|].
        destruct k; discriminate.
      * destruct (IH _ _ _ Hrun) as [rows [xs [Hh [Hlen [Hhd [Hlast Hrows]]]]]].
        cbn [nr_history nr_x_curr] in Hh, Hhd.
        exists (r0 :: rows), (x :: xs).
        split; [rewrite Hh, <- app_assoc; reflexivity|].
        split; [simpl; rewrite Hlen; reflexivity|].
        split; [reflexivity|]. split; [exact Hlast|].
        intros [|k] r Hk.
        -- cbn [nth_error] in Hk.
           destruct (Hfirst r Hk) as [x_k [x_n [q0 [H1 [H2 Hrest]]]]].
           exists x_k, x_n, q0. split; [exact H1|].
           split; [rewrite <- H2; exact Hhd | exact Hrest].
        -- cbn [nth_error] in Hk |- *.
           destruct (Hrows k r Hk) as [x_k [x_n [q0 [H1 [H2 [H3 [H4 [H5 H6]]]]]]]].
           exists x_k, x_n, q0. repeat split; try assumption.
           rewrite H6. f_equal. lia.
Qed.

(** X4.  The frame of [newton_raphson] is the table of a sequence of
    iterates: it starts at [x0], each row holds one iterate, its function
    value and the distance to the next one, the next one is
    [x - f(x) / f'(x)] with the guard not holding at [x], and the estimate
    returned is the last iterate. *)
Theorem newton_rows_follow_iterates
    (func deriv : T -> T) (x0 tol : T) (max_iter : Z)
    (x : T) (rows : list (row T)) :
  newton_raphson func deriv x0 tol max_iter = Ok (PyNum x, DataFrame rows) ->
  exists xs : list T,
    length xs = Datatypes.S (length rows) /\
    nth_error xs 0 = Some x0 /\
    nth_error xs (length rows) = Some x /\
    forall (k : nat) (r : row T),
      nth_error rows k = Some r ->
      exists x_k x_next q : T,
        nth_error xs k = Some x_k /\
        nth_error xs (Datatypes.S k) = Some x_next /\
        ltb (abs (deriv x_k)) eps = false /\
        div (func x_k) (deriv x_k) = Ok q /\
        x_next = sub x_k q /\
        r = newton_row (Z.of_nat k + 1) x_k (func x_k) (abs (sub x_next x_k)).
Proof.
  unfold newton_raphson.
  destruct (for_range _ _ _ _) as [st|ex] eqn:Hrun; cbn [bind]; [|discriminate].
  intros [= <- <-].
  destruct (@newton_loop_chain func deriv tol _ _ _ _ Hrun)
    as [rows [xs [Hh [Hlen [Hhd [Hlast Hrows]]]]]].
  cbn [nr_history nr_x_curr app] in Hh, Hhd. rewrite Hh.
  exists xs. split; [exact Hlen|]. split; [exact Hhd|]. split; [exact Hlast|].
  exact Hrows.
Qed.
Lemma secant_loop_chain (func : T -> T) (tol : T) (n : nat) :
  forall (i : Z) (st st' : secant_locals),
    for_range (secant_body func tol) n i st = Ok st' ->
    exists (rows : list (row T)) (xs : list T),
      sc_history st' = sc_history st ++ rows /\
      length xs = Datatypes.S (Datatypes.S (length rows)) /\
      nth_error xs 0 = Some (sc_x_prev st) /\
      nth_error xs 1 = Some (sc_x_curr st) /\
      nth_error xs (Datatypes.S (length rows)) = Some (sc_x_curr st') /\
      forall (k : nat) (r : row T),
        nth_error rows k = Some r ->
        exists x_prev x_curr x_next q : T,
          nth_error xs k = Some x_prev /\
          nth_error xs (Datatypes.S k) = Some x_curr /\
          nth_error xs (Datatypes.S (Datatypes.S k)) = Some x_next /\
          ltb (abs (sub (func x_curr) (func x_prev))) eps = false /\
          div (sub x_curr x_prev) (sub (func x_curr) (func x_prev)) = Ok q /\
          x_next = sub x_curr (mul (func x_curr) q) /\
          r = secant_row (i + Z.of_nat k + 1) x_curr (func x_curr)
                (abs (sub x_next x_curr)).
Proof.
  induction n as [|n IH]; intros i st st' Hrun.
  - injection Hrun as <-. exists [], [sc_x_prev st; sc_x_curr st]. rewrite app_nil_r.
    repeat split. intros [|k] r; discriminate.
  - cbn [for_range] in Hrun. unfold secant_body in Hrun.
    destruct (ltb (abs (sub (func (sc_x_curr st)) (func (sc_x_prev st)))) eps) eqn:Hg.
    + injection Hrun as <-. exists [], [sc_x_prev st; sc_x_curr st]. rewrite app_nil_r.
      repeat split. intros [|k] r; discriminate.
    + destruct (div (sub (sc_x_curr st) (sc_x_prev st))
                    (sub (func (sc_x_curr st)) (func (sc_x_prev st)))) as [q|ex] eqn:Hq;
        cbn [bind] in Hrun; [|discriminate].
      set (xp := sc_x_prev st) in *. set (x := sc_x_curr st) in *.
      set (x' := sub x (mul (func x) q)) in *.
      set (r0 := secant_row (i + 1) x (func x) (abs (sub x' x))) in *.
      assert (Hfirst : forall r, Some r0 = Some r ->
                exists x_prev x_curr x_next q0 : T,
                  Some xp = Some x_prev /\ Some x = Some x_curr /\
                  Some x' = Some x_next /\
                  ltb (abs (sub (func x_curr) (func x_prev))) eps = false /\
                  div (sub x_curr x_prev) (sub (func x_curr) (func x_prev)) = Ok q0 /\
                  x_next = sub x_curr (mul (func x_curr) q0) /\
                  r = secant_row (i + Z.of_nat 0 + 1) x_curr (func x_curr)
                        (abs (sub x_next x_curr))).
      { intros r [= <-]. exists xp, x, x', q. rewrite Z.add_0_r.
        repeat split; assumption. }
      match type of Hrun with context [ltb ?e tol] => destruct (ltb e tol) end.
      * injection Hrun as <-. exists [r0], [xp; x; x']. cbn [sc_history sc_x_curr].
        repeat split. intros [|k] r Hk; [exact (Hfirst r Hk)|].
        destruct k; discriminate.
      * destruct (IH _ _ _ Hrun)
          as [rows [xs [Hh [Hlen [Hhd0 [Hhd1 [Hlast Hrows]]]]]]].
        cbn [sc_history sc_x_curr sc_x_prev] in Hh, Hhd0, Hhd1.
        exists (r0 :: rows), (xp :: xs).
        split; [rewrite Hh, <- app_assoc; reflexivity|].
        split; [simpl; rewrite Hlen; reflexivity|].
        split; [reflexivity|]. split; [exact Hhd0|]. split; [exact Hlast|].
        intros [|k] r Hk.
        -- cbn [nth_error] in Hk.
           destruct (Hfirst r Hk) as [x_p [x_c [x_n [q0 [H1 [H2 [H3 Hrest]]]]]]].
           exists x_p, x_c, x_n, q0. split; [exact H1|].
           split; [rewrite <- H2; exact Hhd0|].
           split; [rewrite <- H3; exact Hhd1 | exact Hrest].
        -- cbn [nth_error] in Hk.
           destruct (Hrows k r Hk)
             as [x_p [x_c [x_n [q0 [H1 [H2 [H3 [H4 [H5 [H6 H7]]]]]]]]]].
           exists x_p, x_c, x_n, q0. repeat split; try assumption.
           rewrite H7. f_equal. lia.
Qed.

(** X5.  The frame of [secant_method] is the table of a sequence of
    iterates that starts with [x0, x1]: row [k] holds iterate [k + 1], its
    function value and the distance to iterate [k + 2], which is the secant
    point of iterates [k] and [k + 1]; the estimate returned is the last
    iterate. *)
Theorem secant_rows_follow_iterates
    (func : T -> T) (x0 x1 tol : T) (max_iter : Z)
    (x : T) (rows : list (row T)) :
  secant_method func x0 x1 tol max_iter = Ok (PyNum x, DataFrame rows) ->
  exists xs : list T,
    length xs = Datatypes.S (Datatypes.S (length rows)) /\
    nth_error xs 0 = Some x0 /\
    nth_error xs 1 = Some x1 /\
    nth_error xs (Datatypes.S (length rows)) = Some x /\
    forall (k : nat) (r : row T),
      nth_error rows k = Some r ->
      exists x_prev x_curr x_next q : T,
        nth_error xs k = Some x_prev /\
        nth_error xs (Datatypes.S k) = Some x_curr /\
        nth_error xs (Datatypes.S (Datatypes.S k)) = Some x_next /\
        ltb (abs (sub (func x_curr) (func x_prev))) eps = false /\
        div (sub x_curr x_prev) (sub (func x_curr) (func x_prev)) = Ok q /\
        x_next = sub x_curr (mul (func x_curr) q) /\
        r = secant_row (Z.of_nat k + 1) x_curr (func x_curr) (abs (sub x_next x_curr)).
Proof.
  unfold secant_method.
  destruct (for_range _ _ _ _) as [st|ex] eqn:Hrun; cbn [bind]; [|discriminate].
  intros [= <- <-].
  destruct (@secant_loop_chain func tol _ _ _ _ Hrun)
    as [rows [xs [Hh [Hlen [Hhd0 [Hhd1 [Hlast Hrows]]]]]]].
  cbn [sc_history sc_x_curr sc_x_prev app] in Hh, Hhd0, Hhd1. rewrite Hh.
  exists xs. split; [exact Hlen|]. split; [exact Hhd0|]. split; [exact Hhd1|].
  split; [exact Hlast|]. exact Hrows.
Qed.

(** X6.  With a valid bracket and [max_iter <= 0] the loop of
    [false_position] runs no iteration, and the [return] reads the local [c]
    before any assignment: the call raises [UnboundLocalError]. *)
Theorem false_position_zero_iterations_unbound
    (func : T -> T) (a b tol : T) (max_iter : Z) :
  geb (mul (func a) (func b)) zero = false ->
  max_iter <= 0 ->
  false_position func a b tol max_iter = Raise UnboundLocalError.
Proof.
  intros Hv Hmax. unfold false_position. rewrite Hv.
  replace (Z.to_nat max_iter) with 0%nat by lia. reflexivity.
Qed.

(** X7.  Run on the same pair [(a, b)], the two routines take the same
    first step: the root of the first row of [false_position] is the point
    that [secant_method] moves to from [b], so the first secant error is its
    distance to [b] and the second secant row, if any, is recorded there. *)
Theorem secant_first_step_is_chord
    (func : T -> T) (a b tol : T) (max_iter : Z)
    (r_fp r_sc : row T) :
  nth_error (trace_of (false_position func a b tol max_iter)) 0 = Some r_fp ->
  nth_error (trace_of (secant_method func a b tol max_iter)) 0 = Some r_sc ->
  exists c : T,
    get_num "root" r_fp = Some c /\
    get_num "x_curr" r_sc = Some b /\
    row_error r_sc = Some (abs (sub c b)) /\
    (forall r, nth_error (trace_of (secant_method func a b tol max_iter)) 1 = Some r ->
               get_num "x_curr" r = Some c).
Proof.
  intros Hfp Hsc.
  (* false position *)
  unfold false_position in Hfp.
  destruct (geb (mul (func a) (func b)) zero); [discriminate|].
  destruct (for_range (fp_body func tol) _ _ _) as [st|ex] eqn:Hrun;
    cbn [bind] in Hfp; [|discriminate].
  destruct (@fp_loop_rows _ _ _ _ _ _ _ _ Hrun) as [rows [Hrows [Hfrom _]]].
  cbn [fp_init fp_history fp_a fp_b fp_c_old app] in Hrows, Hfrom.
  destruct (fp_c st); [|discriminate]. cbn [trace_of] in Hfp. rewrite Hrows in Hfp.
  destruct (@fp_rows_from_nth _ _ func tol rows 0 a b a Hfrom 0%nat r_fp Hfp)
    as [a0 [b0 [c_prev [q [Hq [Hr [-> [-> ->]]]]]]]].
  (* secant *)
  unfold secant_method in Hsc |- *.
  destruct (for_range (secant_body func tol) _ _ _) as [st2|ex] eqn:Hrun2;
    cbn [bind] in Hsc |- *; [|discriminate].
  destruct (@secant_loop_chain func tol _ _ _ _ Hrun2)
    as [rows2 [xs [Hh [Hlen [Hhd0 [Hhd1 [Hlast Hrows2]]]]]]].
  cbn [sc_history sc_x_curr sc_x_prev app] in Hh, Hhd0, Hhd1.
  cbn [trace_of] in Hsc |- *. rewrite Hh in Hsc |- *.
  destruct (Hrows2 0%nat r_sc Hsc)
    as [x_p [x_c [x_n [q2 [H1 [H2 [H3 [H4 [H5 [H6 H7]]]]]]]]]].
  rewrite Hhd0 in H1. injection H1 as <-. rewrite Hhd1 in H2. injection H2 as <-.
  rewrite Hq in H5. injection H5 as <-.
  exists (sub b (mul (func b) q)). subst x_n.
  split; [rewrite Hr; reflexivity|].
  split; [rewrite H7; reflexivity|].
  split; [rewrite H7; reflexivity|].
  intros r Hr1.
  destruct (Hrows2 1%nat r Hr1)
    as [y_p [y_c [y_n [q3 [G1 [G2 [G3 [G4 [G5 [G6 G7]]]]]]]]]].
  rewrite H3 in G2. injection G2 as <-. rewrite G7. reflexivity.
Qed.
End Chains.

(** ** Frames without rows *)

Section EmptyTrace.
Context {T : Type} {A : Arith T} {L : ArithLaws A}.
Local Open Scope Z_scope.

(** X8.  In an arithmetic where the guards protect the divisions,
    [newton_raphson] and [secant_method] return an empty frame exactly when
    no step was taken: [max_iter <= 0], or the guard already holds at the
    start. *)
Theorem empty_trace_iff_no_step
    (func deriv : T -> T) (x0 x1 tol : T) (max_iter : Z) :
  (trace_of (newton_raphson func deriv x0 tol max_iter) = [] <->
   max_iter <= 0 \/ ltb (abs (deriv x0)) eps = true) /\
  (trace_of (secant_method func x0 x1 tol max_iter) = [] <->
   max_iter <= 0 \/ ltb (abs (sub (func x1) (func x0))) eps = true).
Proof.
  split.
  - unfold newton_raphson.
    destruct (Z.to_nat max_iter) as [|n] eqn:Hn.
    + cbn. split; [intros _; left; lia | reflexivity].
    + cbn [for_range]. unfold newton_body at 1. cbn [nr_x_curr nr_history].
      destruct (ltb (abs (deriv x0)) eps) eqn:Hg.
      * cbn. split; [intros _; right; reflexivity | reflexivity].
      * destruct (div_guarded (func x0) _ Hg) as [q ->]. cbn [bind app].
        split; [|intros [Hle | Hf]; [lia | discriminate]].
        intros Hempty. exfalso. revert Hempty.
        match goal with |- context [ltb ?e tol] => destruct (ltb e tol) end.
        -- cbn. discriminate.
        -- match goal with |- context [for_range ?b ?m ?j ?s] =>
             destruct (for_range_returns b (newton_body_returns func deriv tol) m j s)
               as [st' Hrun]
           end.
           rewrite Hrun. cbn [bind trace_of].
           destruct (@newton_loop_chain _ _ func deriv tol _ _ _ _ Hrun)
             as [rows [xs [Hh _]]].
           rewrite Hh. cbn. discriminate.
  - unfold secant_method.
    destruct (Z.to_nat max_iter) as [|n] eqn:Hn.
    + cbn. split; [intros _; left; lia | reflexivity].
    + cbn [for_range]. unfold secant_body at 1. cbn [sc_x_curr sc_x_prev sc_history].
      destruct (ltb (abs (sub (func x1) (func x0))) eps) eqn:Hg.
      * cbn. split; [intros _; right; reflexivity | reflexivity].
      * destruct (div_guarded (sub x1 x0) _ Hg) as [q ->]. cbn [bind app].
        split; [|intros [Hle | Hf]; [lia | discriminate]].
        intros Hempty. exfalso. revert Hempty.
        match goal with |- context [ltb ?e tol] => destruct (ltb e tol) end.
        -- cbn. discriminate.
        -- match goal with |- context [for_range ?b ?m ?j ?s] =>
             destruct (for_range_returns b (secant_body_returns func tol) m j s)
               as [st' Hrun]
           end.
           rewrite Hrun. cbn [bind trace_of].
           destruct (@secant_loop_chain _ _ func tol _ _ _ _ Hrun)
             as [rows [xs [Hh _]]].
           rewrite Hh. cbn. discriminate.
Qed.
End EmptyTrace.

Section BreakFromHead.
Variable S : Type.
Variable body : Z -> S -> result (ctl S).

Lemma for_range_breaks_from_head (n : nat) (k : nat) (st s s' : S) :
  nth_error (loop_heads body n 0 st) k = Some s ->
  (k < n)%nat ->
  body (0 + Z.of_nat k)%Z s = Ok (Break s') ->
  for_range body n 0 st = Ok s'.
Proof.
  intros Hk Hlt Hb.
  rewrite (for_range_from_head body n 0 st k Hk).
  destruct (n - k)%nat as [|m] eqn:E; [lia|].
  cbn [for_range]. rewrite Hb. reflexivity.
Qed.
End BreakFromHead.

(** ** More on the bracket in exact arithmetic *)

Module ExactMore.
Import RatArith RatLaws ExactBracket ExactBracketFacts ExactNesting.
Local Open Scope Q_scope.

Lemma chord_inside (a b fa fb : Q) :
  a < b -> fa * fb < 0 ->
  a < b - fb * ((b - a) / (fb - fa)) /\ b - fb * ((b - a) / (fb - fa)) < b.
Proof.
  intros Hab Hs.
  assert (Hd : ~ fb - fa == 0) by (apply strict_denominator; exact Hs).
  set (q := (b - a) / (fb - fa)).
  assert (Hq : q * (fb - fa) == b - a) by (unfold q; field; exact Hd).
  destruct (Q_dec fa 0) as [[Hfa | Hfa] | Hfa].
  - assert (Hfb : 0 < fb) by nra.
    assert (Hqpos : 0 < q) by nra.
    split; nra.
  - assert (Hfb : fb < 0) by nra.
    assert (Hqneg : q < 0) by nra.
    split; nra.
  - rewrite Hfa in Hs. lra.
Qed.

Lemma fp_body_nested (func : Q -> Q) (a0 b0 tol : Q) (i : Z) (st : fp_locals) :
  0 < tol ->
  nested func a0 b0 st ->
  exists (c : Q) (k : ctl fp_locals),
    fp_body func tol i st = Ok k /\
    a0 < c /\ c < b0 /\
    match k with
    | Break st' => fp_c st' = Some c
    | Continue st' =>
        fp_c st' = Some c /\ nested func a0 b0 st' /\
        (fp_a st' = fp_a st /\ fp_b st' = c \/ fp_a st' = c /\ fp_b st' = fp_b st)
    end.
Proof.
  intros Htol [Ha [Hab [Hb Hcase]]].
  destruct Hcase as [Hs | [[Hfa [Hco Hfb]] Ha0]];
    unfold fp_body; cbv zeta; cbn [sub mul div abs ltb zero Q_arith].
  - unfold strict in Hs.
    rewrite Q_div_ok by exact (strict_denominator Hs).
    cbn [bind sub mul div abs ltb zero Q_arith].
    destruct (chord_inside Hab Hs) as [Hc1 Hc2].
    set (c := fp_b st - func (fp_b st) *
                ((fp_b st - fp_a st) / (func (fp_b st) - func (fp_a st)))) in *.
    exists c.
    match goal with |- context [Q_ltb ?e tol] => destruct (Q_ltb e tol) end.
    { eexists. split; [reflexivity|]. repeat split; try lra. }
    match goal with |- context [Q_ltb ?p 0] => destruct (Q_ltb p 0) eqn:Hsign end;
      eexists; (split; [reflexivity|]); (split; [lra|]); (split; [lra|]);
      (split; [reflexivity|]);
      (split; [|cbn [fp_a fp_b]; first [left; split; reflexivity | right; split; reflexivity]]);
      unfold nested; cbn [fp_a fp_b fp_c fp_c_old].
    + repeat split; try lra. left. unfold strict. cbn [fp_a fp_b].
      apply Q_ltb_lt. exact Hsign.
    + apply Q_ltb_ge in Hsign. repeat split; try lra.
      destruct (Qeq_dec (func c) 0) as [Hz | Hnz].
      * right. split; [|lra]. unfold at_root. cbn [fp_a fp_b fp_c_old].
        repeat split; [exact Hz | exact (strict_right_nonzero Hs)].
      * left. unfold strict. cbn [fp_a fp_b]. eapply sign_transfer; eauto.
  - assert (Hden : ~ func (fp_b st) - func (fp_a st) == 0) by (rewrite Hfa; lra).
    rewrite Q_div_ok by exact Hden.
    cbn [bind sub mul div abs ltb zero Q_arith]. rewrite Hco.
    pose proof (chord_at_root (fp_a st) (fp_b st) Hfa Hfb) as Hc.
    set (c := fp_b st - func (fp_b st) *
                ((fp_b st - fp_a st) / (func (fp_b st) - func (fp_a st)))) in *.
    assert (Herr : Q_ltb (Qabs (c - fp_a st)) tol = true).
    { apply Q_ltb_lt. rewrite (Qabs_wd _ _ Hc). exact Htol. }
    rewrite Herr. exists c. eexists. split; [reflexivity|].
    repeat split; lra.
Qed.

(** X9.  In exact arithmetic, with [tol > 0] and [a < b], an estimate
    returned by [false_position] lies strictly inside the initial bracket. *)
Theorem estimate_inside_bracket
    (func : Q -> Q) (a b tol : Q) (max_iter : Z) (c : Q) (t : obj Q) :
  0 < tol -> a < b ->
  false_position func a b tol max_iter = Ok (PyNum c, t) ->
  a < c /\ c < b.
Proof.
  intros Htol Hab. unfold false_position.
  destruct (geb (mul (func a) (func b)) zero) eqn:Hv; [discriminate|].
  apply valid_bracket_iff in Hv.
  assert (Hloop : forall n i st st',
             nested func a b st ->
             for_range (fp_body func tol) n i st = Ok st' ->
             st' = st \/ exists c', fp_c st' = Some c' /\ a < c' /\ c' < b).
  { induction n as [|n IH]; intros i st st' Hn Hrun.
    - injection Hrun as <-. left. reflexivity.
    - cbn [for_range] in Hrun.
      destruct (@fp_body_nested func a b tol i st Htol Hn) as [c' [k [Hb [H1 [H2 Hk]]]]].
      rewrite Hb in Hrun. destruct k as [s|s].
      + destruct Hk as [Hc [Hs _]]. destruct (IH _ _ _ Hs Hrun) as [-> | Hr].
        * right. exists c'. repeat split; assumption.
        * right. exact Hr.
      + injection Hrun as <-. right. exists c'. repeat split; assumption. }
  destruct (for_range _ _ _ _) as [st'|ex] eqn:Hrun; cbn [bind]; [|discriminate].
  assert (Hinit : nested func a b (fp_init a b)).
  { unfold nested, strict. cbn [fp_init fp_a fp_b].
    repeat split; [apply Qle_refl | exact Hab | apply Qle_refl | left; exact Hv]. }
  destruct (Hloop _ _ _ _ Hinit Hrun) as [-> | [c' [Hc [H1 H2]]]].
  - cbn. discriminate.
  - rewrite Hc. intros [= <- _]. split; assumption.
Qed.
Lemma nested_heads (func : Q -> Q) (a b tol : Q) (n : nat) :
  0 < tol -> a < b -> func a * func b < 0 ->
  Forall (nested func a b) (loop_heads (fp_body func tol) n 0 (fp_init a b)).
Proof.
  intros Htol Hab Hv. apply loop_heads_invariant.
  - intros i st st' Hn Hb.
    destruct (@fp_body_nested func a b tol i st Htol Hn) as [c [k [Hk [_ [_ Hpost]]]]].
    rewrite Hb in Hk. injection Hk as <-. apply Hpost.
  - unfold nested, strict. cbn [fp_init fp_a fp_b].
    repeat split; [apply Qle_refl | exact Hab | apply Qle_refl | left; exact Hv].
Qed.

(** X10.  In exact arithmetic, with [tol > 0], [a < b] and a valid bracket,
    every bracket update starts inside [[a, b]], keeps one end, moves the
    other strictly inwards, and leaves the ends in order. *)
Theorem bracket_shrinks
    (func : Q -> Q) (a b tol : Q) (max_iter : Z) :
  0 < tol -> a < b -> func a * func b < 0 ->
  forall (k : nat) (st st' : fp_locals),
    let heads := loop_heads (fp_body func tol) (Z.to_nat max_iter) 0 (fp_init a b) in
    nth_error heads k = Some st ->
    nth_error heads (Datatypes.S k) = Some st' ->
    a <= fp_a st /\ fp_b st <= b /\
    fp_a st' < fp_b st' /\
    (fp_a st' = fp_a st /\ fp_b st' < fp_b st \/
     fp_a st < fp_a st' /\ fp_b st' = fp_b st).
Proof.
  intros Htol Hab Hv k st st' heads Hk Hk'.
  pose proof (@nested_heads func a b tol (Z.to_nat max_iter) Htol Hab Hv) as HN.
  pose proof (@exact_heads func a b tol (Z.to_nat max_iter) Htol Hv) as HJ.
  rewrite Forall_forall in HN, HJ.
  specialize (HN st (nth_error_In _ _ Hk)). specialize (HJ st (nth_error_In _ _ Hk)).
  pose proof (@loop_heads_step _ _ _ _ _ _ _ _ Hk Hk') as Hb.
  destruct (@fp_body_exact func tol (0 + Z.of_nat k) st Htol HJ) as [c0 [Hc0 Hpost]].
  rewrite Hb in Hc0. injection Hc0 as <-. destruct Hpost as [Hs _].
  destruct HN as [Ha [Hlt [Hb0 _]]].
  assert (Hloc : nested func (fp_a st) (fp_b st) st).
  { unfold nested. repeat split; [apply Qle_refl | exact Hlt | apply Qle_refl | left; exact Hs]. }
  destruct (@fp_body_nested func (fp_a st) (fp_b st) tol (0 + Z.of_nat k) st Htol Hloc)
    as [c [k0 [Hk0 [Hc1 [Hc2 Hpost]]]]].
  rewrite Hb in Hk0. injection Hk0 as <-.
  destruct Hpost as [_ [[_ [Hlt' _]] Hend]].
  split; [exact Ha|]. split; [exact Hb0|]. split; [exact Hlt'|].
  destruct Hend as [[-> ->] | [-> ->]]; [left | right]; split; auto.
Qed.

Lemma fp_body_at_root (func : Q -> Q) (tol : Q) (i : Z) (st : fp_locals) :
  0 < tol -> at_root func st ->
  exists (st' : fp_locals) (c : Q),
    fp_body func tol i st = Ok (Break st') /\
    fp_c st' = Some c /\ c == fp_a st.
Proof.
  intros Htol [Hfa [Hco Hfb]].
  unfold fp_body; cbv zeta; cbn [sub mul div abs ltb zero Q_arith].
  assert (Hden : ~ func (fp_b st) - func (fp_a st) == 0) by (rewrite Hfa; lra).
  rewrite Q_div_ok by exact Hden.
  cbn [bind sub mul div abs ltb zero Q_arith]. rewrite Hco.
  pose proof (chord_at_root (fp_a st) (fp_b st) Hfa Hfb) as Hc.
  set (c := fp_b st - func (fp_b st) *
              ((fp_b st - fp_a st) / (func (fp_b st) - func (fp_a st)))) in *.
  assert (Herr : Q_ltb (Qabs (c - fp_a st)) tol = true).
  { apply Q_ltb_lt. rewrite (Qabs_wd _ _ Hc). exact Htol. }
  rewrite Herr. eexists. exists c. split; [reflexivity|].
  split; [reflexivity | lra].
Qed.

(** X11.  In exact arithmetic, with [tol > 0] and a valid bracket: once the
    left end of the bracket is an exact root, the next iteration, if there is
    one, ends the run and the estimate returned equals that root. *)
Theorem exact_root_is_returned
    (func : Q -> Q) (a b tol : Q) (max_iter : Z) (k : nat) (st : fp_locals) :
  0 < tol -> func a * func b < 0 ->
  nth_error (loop_heads (fp_body func tol) (Z.to_nat max_iter) 0 (fp_init a b)) k
  = Some st ->
  (k < Z.to_nat max_iter)%nat ->
  func (fp_a st) == 0 ->
  exists (c : Q) (rows : list (row Q)),
    false_position func a b tol max_iter = Ok (PyNum c, DataFrame rows) /\
    c == fp_a st.
Proof.
  intros Htol Hv Hk Hlt Hroot.
  pose proof (@exact_heads func a b tol (Z.to_nat max_iter) Htol Hv) as HJ.
  rewrite Forall_forall in HJ. specialize (HJ st (nth_error_In _ _ Hk)).
  assert (Hat : at_root func st).
  { destruct HJ as [Hs | Hat]; [|exact Hat].
    unfold strict in Hs. rewrite Hroot in Hs. lra. }
  destruct (@fp_body_at_root func tol (0 + Z.of_nat k) st Htol Hat)
    as [st' [c [Hb [Hc Hceq]]]].
  exists c, (fp_history st'). split; [|exact Hceq].
  unfold false_position.
  rewrite (proj2 (valid_bracket_iff func a b) Hv).
  rewrite (@for_range_breaks_from_head _ _ _ _ _ _ _ Hk Hlt Hb).
  cbn [bind]. rewrite Hc. reflexivity.
Qed.
Lemma Q_div_inv (x y q : Q) : Q_div x y = Ok q -> q = x / y /\ ~ y == 0.
Proof.
  unfold Q_div. destruct (Qeq_bool y 0) eqn:E; [discriminate|].
  intros [= <-]. split; [reflexivity|].
  intros Hy. apply Qeq_bool_iff in Hy. congruence.
Qed.

Lemma Qabs_step (x q : Q) : Qabs (x - q - x) == Qabs q.
Proof.
  assert (E : x - q - x == - q) by ring.
  rewrite (Qabs_wd _ _ E). apply Qabs_opp.
Qed.

Lemma Qabs_quotient_lt (n d t : Q) :
  ~ d == 0 -> Qabs (n / d) < t -> Qabs n < t * Qabs d.
Proof.
  intros Hd Hlt.
  assert (Hpos : 0 < Qabs d).
  { apply Qabs_case; intros Hs; destruct (Q_dec d 0) as [[Hlt0|Hgt0]|Heq0]; try lra;
      contradiction. }
  assert (E : Qabs (n / d) == Qabs n / Qabs d).
  { unfold Qdiv. rewrite Qabs_Qmult, Qabs_Qinv. reflexivity. }
  rewrite E in Hlt.
  assert (E2 : Qabs n == Qabs n / Qabs d * Qabs d) by (field; lra).
  rewrite E2. apply Qmult_lt_compat_r; assumption.
Qed.

(** X12.  In exact arithmetic, every row of [newton_raphson] holds
    [|f(x) / f'(x)|] as its error, taken at the row's own [x_curr], where the
    derivative is at least [1e-12] in absolute value; a row whose error is
    below [tol] therefore has [|f(x)| < tol * |f'(x)|]. *)
Theorem newton_error_column
    (func deriv : Q -> Q) (x0 tol : Q) (max_iter : Z) (k : nat) (r : row Q) :
  nth_error (trace_of (newton_raphson func deriv x0 tol max_iter)) k = Some r ->
  exists x_k e : Q,
    get_num "x_curr" r = Some x_k /\
    get_num "f(x)" r = Some (func x_k) /\
    row_error r = Some e /\
    e == Qabs (func x_k / deriv x_k) /\
    eps <= Qabs (deriv x_k) /\
    (ltb e tol = true -> Qabs (func x_k) < tol * Qabs (deriv x_k)).
Proof.
  unfold newton_raphson.
  destruct (for_range _ _ _ _) as [st|ex] eqn:Hrun; cbn [bind trace_of];
    [|destruct k; discriminate].
  destruct (@newton_loop_chain _ _ func deriv tol _ _ _ _ Hrun)
    as [rows [xs [Hh [_ [_ [_ Hrows]]]]]].
  cbn [nr_history app] in Hh. rewrite Hh. intros Hk.
  destruct (Hrows k r Hk) as [x_k [x_n [q [_ [_ [Hg [Hq [Hn Hr]]]]]]]].
  cbn [div Q_arith] in Hq. apply Q_div_inv in Hq as [-> Hd].
  cbn [ltb abs eps Q_arith] in Hg. apply Q_ltb_ge in Hg.
  exists x_k, (Qabs (x_n - x_k)). rewrite Hr.
  split; [reflexivity|]. split; [reflexivity|]. split; [reflexivity|].
  assert (He : Qabs (x_n - x_k) == Qabs (func x_k / deriv x_k)).
  { rewrite Hn. apply Qabs_step. }
  split; [exact He|]. split; [exact Hg|].
  cbn [ltb Q_arith]. intros Hlt. apply Q_ltb_lt in Hlt.
  apply Qabs_quotient_lt; [exact Hd|]. rewrite <- He. exact Hlt.
Qed.
End ExactMore.

(** ** Runs under another iteration cap *)

Section CapLoop.
Context {T : Type} {A : Arith T}.
Local Open Scope Z_scope.
Local Open Scope string_scope.
Local Open Scope list_scope.
Variable S : Type.
Variable hist : S -> list (row T).
Variable tol : T.
Variable body : Z -> S -> result (ctl S).
Hypothesis body_appends : forall i st c, body i st = Ok c -> appends_one hist tol st c.

Lemma none_converged_not_last (h : list (row T)) :
  none_converged tol h -> last_row_converged tol h -> False.
Proof.
  intros Hn [r [e [Hr [He Hlt]]]]. apply nth_error_In in Hr.
  rewrite (Hn _ _ Hr He) in Hlt. discriminate.
Qed.

(** A loop that stopped on its own does the same under any larger cap. *)
Lemma for_range_cap (n : nat) :
  forall (i : Z) (st st' : S),
    none_converged tol (hist st) ->
    for_range body n i st = Ok st' ->
    (length (hist st') < length (hist st) + n)%nat \/
    last_row_converged tol (hist st') ->
    forall d : nat, for_range body (n + d) i st = Ok st'.
Proof.
  induction n as [|n IH]; intros i st st' Hnc Hrun Hstop d.
  - injection Hrun as <-. destruct Hstop as [Hl|Hl]; [lia|].
    destruct (none_converged_not_last Hnc Hl).
  - cbn [for_range Nat.add] in *.
    destruct (body i st) as [[s|s]|e] eqn:Eb; [| exact Hrun | discriminate].
    apply body_appends in Eb. destruct Eb as [r [e [Hh [Hr He]]]].
    apply (IH (i + 1) s st'); [| exact Hrun |].
    + rewrite Hh. eapply none_converged_snoc; eauto.
    + destruct Hstop as [Hl|Hl]; [left | right; exact Hl].
      rewrite Hh, length_app. simpl. lia.
Qed.

(** Under a smaller cap the loop records the first rows of the longer run. *)
Lemma for_range_prefix (n : nat) :
  forall (i : Z) (st st' : S) (d : nat),
    none_converged tol (hist st) ->
    for_range body (n + d) i st = Ok st' ->
    exists s : S,
      for_range body n i st = Ok s /\
      hist s = firstn (length (hist st) + n) (hist st').
Proof.
  induction n as [|n IH]; intros i st st' d Hnc Hrun.
  - exists st. split; [reflexivity|]. rewrite Nat.add_0_r.
    cbn [Nat.add] in Hrun.
    assert (Hgrow : exists rows, hist st' = hist st ++ rows).
    { clear Hnc. revert i st Hrun. induction d as [|d IHd]; intros i st Hrun.
      - injection Hrun as <-. exists []. rewrite app_nil_r. reflexivity.
      - cbn [for_range] in Hrun.
        destruct (body i st) as [[s|s]|e] eqn:Eb; [| |discriminate].
        + apply body_appends in Eb. destruct Eb as [r [e [Hh _]]].
          destruct (IHd _ _ Hrun) as [rows Hrows]. exists (r :: rows).
          rewrite Hrows, Hh, <- app_assoc. reflexivity.
        + injection Hrun as <-. apply body_appends in Eb.
          destruct Eb as [Hh | [r Hh]]; rewrite Hh.
          * exists []. rewrite app_nil_r. reflexivity.
          * exists [r]. reflexivity. }
    destruct Hgrow as [rows ->].
    rewrite firstn_app, Nat.sub_diag, firstn_all. simpl.
    rewrite app_nil_r. reflexivity.
  - cbn [for_range Nat.add] in *.
    destruct (body i st) as [[s|s]|e] eqn:Eb; [| |discriminate].
    + apply body_appends in Eb. destruct Eb as [r [e [Hh [Hr He]]]].
      destruct (IH (i + 1) s st' d) as [s' [Hs' Hp]]; [| exact Hrun |].
      * rewrite Hh. eapply none_converged_snoc; eauto.
      * exists s'. split; [exact Hs'|]. rewrite Hp, Hh, length_app. simpl.
        f_equal. lia.
    + injection Hrun as <-. exists s. split; [reflexivity|].
      apply body_appends in Eb.
      destruct Eb as [Hh | [r Hh]]; rewrite Hh.
      * rewrite firstn_all2 by lia. reflexivity.
      * rewrite firstn_all2; [reflexivity|]. rewrite length_app. simpl. lia.
Qed.
End CapLoop.

Section CapTheorems.
Context {T : Type} {A : Arith T}.
Local Open Scope Z_scope.
Local Open Scope string_scope.
Local Open Scope list_scope.

(** X14.  A run that stopped on its own, with fewer rows than [max_iter] or
    with a last row that converged, is not changed by a larger [max_iter]:
    each routine returns the same estimate and the same frame. *)
Theorem stopped_run_ignores_cap :
  (forall (func deriv : T -> T) (x0 tol : T) (n m : Z) (x : T) (rows : list (row T)),
      newton_raphson func deriv x0 tol n = Ok (PyNum x, DataFrame rows) ->
      Z.of_nat (length rows) < n \/ last_row_converged tol rows ->
      n <= m ->
      newton_raphson func deriv x0 tol m = Ok (PyNum x, DataFrame rows)) /\
  (forall (func : T -> T) (x0 x1 tol : T) (n m : Z) (x : T) (rows : list (row T)),
      secant_method func x0 x1 tol n = Ok (PyNum x, DataFrame rows) ->
      Z.of_nat (length rows) < n \/ last_row_converged tol rows ->
      n <= m ->
      secant_method func x0 x1 tol m = Ok (PyNum x, DataFrame rows)) /\
  (forall (func : T -> T) (a b tol : T) (n m : Z) (c : T) (rows : list (row T)),
      false_position func a b tol n = Ok (PyNum c, DataFrame rows) ->
      Z.of_nat (length rows) < n \/ last_row_converged tol rows ->
      n <= m ->
      false_position func a b tol m = Ok (PyNum c, DataFrame rows)).
Proof.
  split; [|split].
  - intros func deriv x0 tol n m x rows Hrun Hstop Hle.
    unfold newton_raphson in *.
    destruct (for_range _ (Z.to_nat n) _ _) as [st|e] eqn:Erun; [|discriminate].
    cbn [bind] in Hrun. injection Hrun as Hx Hrows.
    replace (Z.to_nat m) with (Z.to_nat n + (Z.to_nat m - Z.to_nat n))%nat by lia.
    rewrite (@for_range_cap _ _ _ nr_history tol _ (newton_body_appends func deriv tol)
               (Z.to_nat n) 0 {| nr_history := []; nr_x_curr := x0 |} st
               (@none_converged_nil _ _ tol) Erun).
    + cbn [bind]. rewrite Hx, Hrows. reflexivity.
    + cbn [nr_history]. rewrite Hrows.
      destruct Hstop as [Hl|Hl]; [left; simpl; lia | right; exact Hl].
  - intros func x0 x1 tol n m x rows Hrun Hstop Hle.
    unfold secant_method in *.
    destruct (for_range _ (Z.to_nat n) _ _) as [st|e] eqn:Erun; [|discriminate].
    cbn [bind] in Hrun. injection Hrun as Hx Hrows.
    replace (Z.to_nat m) with (Z.to_nat n + (Z.to_nat m - Z.to_nat n))%nat by lia.
    rewrite (@for_range_cap _ _ _ sc_history tol _ (secant_body_appends func tol)
               (Z.to_nat n) 0 {| sc_history := []; sc_x_prev := x0; sc_x_curr := x1 |} st
               (@none_converged_nil _ _ tol) Erun).
    + cbn [bind]. rewrite Hx, Hrows. reflexivity.
    + cbn [sc_history]. rewrite Hrows.
      destruct Hstop as [Hl|Hl]; [left; simpl; lia | right; exact Hl].
  - intros func a b tol n m c rows Hrun Hstop Hle.
    unfold false_position in *.
    destruct (geb (mul (func a) (func b)) zero); [discriminate|].
    destruct (for_range _ (Z.to_nat n) _ _) as [st|e] eqn:Erun; [|discriminate].
    cbn [bind] in Hrun.
    replace (Z.to_nat m) with (Z.to_nat n + (Z.to_nat m - Z.to_nat n))%nat by lia.
    rewrite (@for_range_cap _ _ _ fp_history tol _ (fp_body_appends func tol)
               (Z.to_nat n) 0 (fp_init a b) st
               (@none_converged_nil _ _ tol) Erun).
    + cbn [bind]. exact Hrun.
    + destruct (fp_c st); [|discriminate]. injection Hrun as _ Hrows.
      cbn [fp_init fp_history]. rewrite Hrows.
      destruct Hstop as [Hl|Hl]; [left; simpl; lia | right; exact Hl].
Qed.

(** X15.  Under a smaller [max_iter] each routine returns the first
    [max_iter] rows of the frame it returns under the larger one
    ([false_position] from [max_iter >= 1] on). *)
Theorem smaller_cap_gives_prefix :
  (forall (func deriv : T -> T) (x0 tol : T) (n m : Z) (x : T) (rows : list (row T)),
      newton_raphson func deriv x0 tol n = Ok (PyNum x, DataFrame rows) ->
      0 <= m <= n ->
      exists x' : T,
        newton_raphson func deriv x0 tol m
        = Ok (PyNum x', DataFrame (firstn (Z.to_nat m) rows))) /\
  (forall (func : T -> T) (x0 x1 tol : T) (n m : Z) (x : T) (rows : list (row T)),
      secant_method func x0 x1 tol n = Ok (PyNum x, DataFrame rows) ->
      0 <= m <= n ->
      exists x' : T,
        secant_method func x0 x1 tol m
        = Ok (PyNum x', DataFrame (firstn (Z.to_nat m) rows))) /\
  (forall (func : T -> T) (a b tol : T) (n m : Z) (c : T) (rows : list (row T)),
      false_position func a b tol n = Ok (PyNum c, DataFrame rows) ->
      1 <= m <= n ->
      exists c' : T,
        false_position func a b tol m
        = Ok (PyNum c', DataFrame (firstn (Z.to_nat m) rows))).
Proof.
  split; [|split].
  - intros func deriv x0 tol n m x rows Hrun Hle.
    unfold newton_raphson in *.
    replace (Z.to_nat n) with (Z.to_nat m + (Z.to_nat n - Z.to_nat m))%nat in Hrun
      by lia.
    destruct (for_range _ (_ + _)%nat _ _) as [st|e] eqn:Erun; [|discriminate].
    cbn [bind] in Hrun. injection Hrun as _ Hrows.
    destruct (@for_range_prefix _ _ _ nr_history tol _ (newton_body_appends func deriv tol)
                (Z.to_nat m) 0 {| nr_history := []; nr_x_curr := x0 |} st _
                (@none_converged_nil _ _ tol) Erun) as [s [Hs Hp]].
    rewrite Hs. cbn [bind]. exists (nr_x_curr s). rewrite Hp, Hrows. reflexivity.
  - intros func x0 x1 tol n m x rows Hrun Hle.
    unfold secant_method in *.
    replace (Z.to_nat n) with (Z.to_nat m + (Z.to_nat n - Z.to_nat m))%nat in Hrun
      by lia.
    destruct (for_range _ (_ + _)%nat _ _) as [st|e] eqn:Erun; [|discriminate].
    cbn [bind] in Hrun. injection Hrun as _ Hrows.
    destruct (@for_range_prefix _ _ _ sc_history tol _ (secant_body_appends func tol)
                (Z.to_nat m) 0 {| sc_history := []; sc_x_prev := x0; sc_x_curr := x1 |} st _
                (@none_converged_nil _ _ tol) Erun) as [s [Hs Hp]].
    rewrite Hs. cbn [bind]. exists (sc_x_curr s). rewrite Hp, Hrows. reflexivity.
  - intros func a b tol n m c rows Hrun Hle.
    unfold false_position in *.
    destruct (geb (mul (func a) (func b)) zero); [discriminate|].
    replace (Z.to_nat n) with (Z.to_nat m + (Z.to_nat n - Z.to_nat m))%nat in Hrun
      by lia.
    destruct (for_range _ (_ + _)%nat _ _) as [st|e] eqn:Erun; [|discriminate].
    cbn [bind] in Hrun. destruct (fp_c st); [|discriminate].
    injection Hrun as _ Hrows.
    destruct (@for_range_prefix _ _ _ fp_history tol _ (fp_body_appends func tol)
                (Z.to_nat m) 0 (fp_init a b) st _
                (@none_converged_nil _ _ tol) Erun) as [s [Hs Hp]].
    rewrite Hs. cbn [bind].
    destruct (@fp_loop_rows _ _ _ _ _ _ _ _ Hs)
      as [rs [_ [_ [[_ [_ Hn]] | [r [c' [_ [_ Hc]]]]]]]]; [lia|].
    rewrite Hc. exists c'. rewrite Hp, Hrows. reflexivity.
Qed.
End CapTheorems.

(** ** Starting at an exact root *)

Module ExactStart.
Import RatArith RatLaws.
Local Open Scope Z_scope.
Local Open Scope string_scope.
Local Open Scope list_scope.
Local Open Scope Q_scope.

Lemma eps_positive : 0 < eps.
Proof. reflexivity. Qed.

Lemma guard_open (d : Q) : eps <= Qabs d -> Q_ltb (Qabs d) eps = false /\ ~ d == 0.
Proof.
  intros Hd. split; [apply Q_ltb_ge; exact Hd|].
  intros Hz. rewrite (Qabs_wd _ _ Hz) in Hd. pose proof eps_positive as He.
  change (Qabs 0) with 0 in Hd. lra.
Qed.

Lemma Qabs_zero_step (x q : Q) : q == 0 -> Qabs (x - q - x) == 0.
Proof.
  intros Hq. assert (Hz : x - q - x == 0) by lra.
  rewrite (Qabs_wd _ _ Hz). reflexivity.
Qed.

(** X16.  In exact arithmetic, with [tol > 0] and [max_iter >= 1]:
    [newton_raphson] started at an exact root where the derivative passes the
    guard, and [secant_method] whose [x1] is an exact root and whose slope
    passes the guard, record one row with error 0 and return the root. *)
Theorem start_at_root_stops_after_one_row :
  (forall (func deriv : Q -> Q) (x0 tol : Q) (max_iter : Z),
      func x0 == 0 -> eps <= Qabs (deriv x0) -> 0 < tol -> (1 <= max_iter)%Z ->
      exists x e : Q,
        newton_raphson func deriv x0 tol max_iter
        = Ok (PyNum x, DataFrame [newton_row 1 x0 (func x0) e]) /\
        x == x0 /\ e == 0) /\
  (forall (func : Q -> Q) (x0 x1 tol : Q) (max_iter : Z),
      func x1 == 0 -> eps <= Qabs (func x1 - func x0) -> 0 < tol ->
      (1 <= max_iter)%Z ->
      exists x e : Q,
        secant_method func x0 x1 tol max_iter
        = Ok (PyNum x, DataFrame [secant_row 1 x1 (func x1) e]) /\
        x == x1 /\ e == 0).
Proof.
  split.
  - intros func deriv x0 tol max_iter Hroot Hd Htol Hmax.
    destruct (@guard_open _ Hd) as [Hg Hnz].
    unfold newton_raphson.
    destruct (Z.to_nat max_iter) as [|n] eqn:En; [lia|].
    cbn [for_range]. unfold newton_body. cbn [nr_x_curr nr_history].
    change (ltb (abs (deriv x0)) eps) with (Q_ltb (Qabs (deriv x0)) eps).
    rewrite Hg. change (div (func x0) (deriv x0)) with (Q_div (func x0) (deriv x0)).
    rewrite (@Q_div_ok _ _ Hnz). cbn [bind].
    assert (Hq : func x0 / deriv x0 == 0).
    { rewrite Hroot. field. exact Hnz. }
    assert (He : Qabs (x0 - func x0 / deriv x0 - x0) == 0)
      by (apply Qabs_zero_step; exact Hq).
    assert (Hlt : ltb (abs (sub (sub x0 (func x0 / deriv x0)) x0)) tol = true).
    { apply Q_ltb_lt. change (Qabs (x0 - func x0 / deriv x0 - x0) < tol).
      rewrite He. exact Htol. }
    rewrite Hlt. cbn [bind nr_x_curr nr_history app].
    eexists. eexists. split; [reflexivity|]. split; [|exact He].
    change (x0 - func x0 / deriv x0 == x0). lra.
  - intros func x0 x1 tol max_iter Hroot Hd Htol Hmax.
    destruct (@guard_open _ Hd) as [Hg Hnz].
    unfold secant_method.
    destruct (Z.to_nat max_iter) as [|n] eqn:En; [lia|].
    cbn [for_range]. unfold secant_body. cbn [sc_x_curr sc_x_prev sc_history].
    change (ltb (abs (sub (func x1) (func x0))) eps)
      with (Q_ltb (Qabs (func x1 - func x0)) eps).
    rewrite Hg.
    change (div (sub x1 x0) (sub (func x1) (func x0)))
      with (Q_div (x1 - x0) (func x1 - func x0)).
    rewrite (@Q_div_ok _ _ Hnz). cbn [bind].
    set (q := (x1 - x0) / (func x1 - func x0)).
    assert (Hq : func x1 * q == 0) by (rewrite Hroot; lra).
    assert (He : Qabs (x1 - func x1 * q - x1) == 0)
      by (apply Qabs_zero_step; exact Hq).
    assert (Hlt : ltb (abs (sub (sub x1 (mul (func x1) q)) x1)) tol = true).
    { apply Q_ltb_lt. change (Qabs (x1 - func x1 * q - x1) < tol).
      rewrite He. exact Htol. }
    rewrite Hlt. cbn [bind sc_x_curr sc_history app].
    eexists. eexists. split; [reflexivity|]. split; [|exact He].
    change (x1 - func x1 * q == x1). lra.
Qed.

Lemma start_at_root_stops_after_one_row_witness :
  (exists x e : Q,
      newton_raphson Inputs.Q_ident Inputs.Q_one 0 tol_default 50
      = Ok (PyNum x, DataFrame [newton_row 1 0 (Inputs.Q_ident 0) e]) /\
      x == 0 /\ e == 0) /\
  (exists x e : Q,
      secant_method Inputs.Q_ident 1 0 tol_default 50
      = Ok (PyNum x, DataFrame [secant_row 1 0 (Inputs.Q_ident 0) e]) /\
      x == 0 /\ e == 0).
Proof.
  split.
  - apply (proj1 start_at_root_stops_after_one_row Inputs.Q_ident Inputs.Q_one
             0 tol_default 50%Z).
    + reflexivity.
    + vm_compute. discriminate.
    + reflexivity.
    + lia.
  - apply (proj2 start_at_root_stops_after_one_row Inputs.Q_ident
             1 0 tol_default 50%Z).
    + reflexivity.
    + vm_compute. discriminate.
    + reflexivity.
    + lia.
Defined.
End ExactStart.

(** ** Exceptions of false_position, and the driver *)

Section DriverFacts.
Context {T : Type} {A : Arith T}.
Local Open Scope Z_scope.
Local Open Scope string_scope.
Local Open Scope list_scope.

(** A loop that raises does so in the iteration run from one of its heads. *)
Lemma for_range_raise (S : Type) (body : Z -> S -> result (ctl S)) (n : nat) :
  forall (i : Z) (st : S) (ex : exn),
    for_range body n i st = Raise ex ->
    exists (k : nat) (s : S),
      nth_error (loop_heads body n i st) k = Some s /\ (k < n)%nat /\
      body (i + Z.of_nat k) s = Raise ex.
Proof.
  induction n as [|n IH]; intros i st ex Hrun; [discriminate|].
  cbn [for_range] in Hrun. cbn [loop_heads].
  destruct (body i st) as [[s|s]|e] eqn:Eb.
  - destruct (IH _ _ _ Hrun) as [k [s' [Hk [Hlt Hb]]]].
    exists (Datatypes.S k), s'. split; [exact Hk|]. split; [lia|].
    replace (i + Z.of_nat (Datatypes.S k)) with (i + 1 + Z.of_nat k) by lia.
    exact Hb.
  - discriminate.
  - injection Hrun as <-. exists 0%nat, st. split; [reflexivity|]. split; [lia|].
    rewrite Z.add_0_r. exact Eb.
Qed.

Lemma fp_body_raise (func : T -> T) (tol : T) (i : Z) (st : fp_locals) (ex : exn) :
  fp_body func tol i st = Raise ex ->
  div (sub (fp_b st) (fp_a st)) (sub (func (fp_b st)) (func (fp_a st))) = Raise ex.
Proof.
  unfold fp_body.
  destruct (div (sub (fp_b st) (fp_a st)) (sub (func (fp_b st)) (func (fp_a st))))
    as [q|e]; cbn [bind]; intros Hb.
  - repeat match type of Hb with
           | context [if ?c then _ else _] => destruct c
           end; discriminate.
  - injection Hb as <-. reflexivity.
Qed.

(** What a call of [false_position] can give. *)
Lemma false_position_outcomes (func : T -> T) (a b tol : T) (max_iter : Z) :
  geb (mul (func a) (func b)) zero = true /\
  false_position func a b tol max_iter = Ok (PyNone, PyNone)
  \/
  geb (mul (func a) (func b)) zero = false /\
  ((exists (c : T) (rows : list (row T)),
       false_position func a b tol max_iter = Ok (PyNum c, DataFrame rows)) \/
   (exists ex : exn,
       false_position func a b tol max_iter = Raise ex /\
       (ex = UnboundLocalError /\ max_iter <= 0 \/
        exists x y : T, div x y = Raise ex))).
Proof.
  unfold false_position.
  destruct (geb (mul (func a) (func b)) zero); [left; split; reflexivity|].
  right. split; [reflexivity|].
  destruct (for_range _ _ _ _) as [st|ex] eqn:Erun; cbn [bind].
  - destruct (@fp_loop_rows _ _ _ _ _ _ _ _ Erun)
      as [rows [_ [_ [[_ [-> Hn]] | [r [c [_ [_ Hc]]]]]]]].
    + right. exists UnboundLocalError. split; [reflexivity|]. left. split; [reflexivity|].
      lia.
    + rewrite Hc. left. eauto.
  - right. exists ex. split; [reflexivity|]. right.
    apply for_range_raise in Erun. destruct Erun as [k [s [_ [_ Hb]]]].
    apply fp_body_raise in Hb. eauto.
Qed.

(** X17.  An exception of [false_position] has one of two causes, both
    behind a valid bracket: [max_iter <= 0], which gives [UnboundLocalError],
    or the division [(b - a) / (fb - fa)] of an iteration, taken at one of
    the loop heads. *)
Theorem false_position_raise_causes
    (func : T -> T) (a b tol : T) (max_iter : Z) (ex : exn) :
  false_position func a b tol max_iter = Raise ex ->
  geb (mul (func a) (func b)) zero = false /\
  (ex = UnboundLocalError /\ max_iter <= 0
   \/
   exists (k : nat) (st : fp_locals),
     nth_error (loop_heads (fp_body func tol) (Z.to_nat max_iter) 0 (fp_init a b)) k
     = Some st /\
     (k < Z.to_nat max_iter)%nat /\
     div (sub (fp_b st) (fp_a st)) (sub (func (fp_b st)) (func (fp_a st)))
     = Raise ex).
Proof.
  unfold false_position.
  destruct (geb (mul (func a) (func b)) zero); [discriminate|].
  intros Hrun. split; [reflexivity|].
  destruct (for_range _ _ _ _) as [st|e] eqn:Erun; cbn [bind] in Hrun.
  - left. destruct (@fp_loop_rows _ _ _ _ _ _ _ _ Erun)
      as [rows [_ [_ [[_ [-> Hn]] | [r [c [_ [_ Hc]]]]]]]].
    + cbn [fp_init fp_c] in Hrun. injection Hrun as <-. split; [reflexivity | lia].
    + rewrite Hc in Hrun. discriminate.
  - injection Hrun as <-. right.
    apply for_range_raise in Erun. destruct Erun as [k [s [Hk [Hlt Hb]]]].
    apply fp_body_raise in Hb. exists k, s. repeat split; assumption.
Qed.

Lemma process_cases (e : entry T) (evs : list (event T)) (f : option failure) :
  process e = (evs, f) ->
  f = None /\ reported e evs
  \/
  exists ex : exn,
    f = Some (Raised ex) /\ evs = [header e] /\
    false_position (e_func e) (e_a e) (e_b e) tol_default 50 = Raise ex /\
    exists x y : T, div x y = Raise ex.
Proof.
  unfold process, reported.
  destruct (false_position_outcomes (e_func e) (e_a e) (e_b e) tol_default 50)
    as [[Hv ->] | [Hv [[c [rows ->]] | [ex [-> Hex]]]]].
  - intros [= <- <-]. left. split; [reflexivity|]. left. split; [exact Hv | reflexivity].
  - intros [= <- <-]. left. split; [reflexivity|]. right. split; [exact Hv|].
    exists c, rows. split; reflexivity.
  - intros [= <- <-]. right. exists ex. split; [reflexivity|]. split; [reflexivity|].
    split; [reflexivity|]. destruct Hex as [[_ Hn] | Hd]; [lia | exact Hd].
Qed.

Lemma process_all_cases (items : list (entry T)) :
  forall (evs : list (event T)) (f : option failure),
    process_all items = (evs, f) ->
    exists (done : list (entry T)) (blocks : list (list (event T))),
      Forall2 reported done blocks /\
      (f = None /\ items = done /\ evs = concat blocks
       \/
       exists (e : entry T) (rest : list (entry T)) (ex : exn),
         f = Some (Raised ex) /\ items = done ++ e :: rest /\
         evs = concat blocks ++ [header e] /\
         false_position (e_func e) (e_a e) (e_b e) tol_default 50 = Raise ex /\
         exists x y : T, div x y = Raise ex).
Proof.
  induction items as [|e rest IH]; intros evs f Hrun.
  - injection Hrun as <- <-. exists [], []. split; [constructor|]. left. repeat split.
  - cbn [process_all] in Hrun.
    destruct (process e) as [evs0 f0] eqn:Ep.
    apply process_cases in Ep.
    destruct Ep as [[-> Hrep] | [ex [-> [-> [Hfp Hd]]]]].
    + destruct (process_all rest) as [evs' f'] eqn:Er.
      injection Hrun as <- <-.
      destruct (IH _ _ eq_refl) as [done [blocks [Hall Hcase]]].
      exists (e :: done), (evs0 :: blocks). split; [constructor; assumption|].
      destruct Hcase as [[-> [-> ->]] | [e' [rest' [ex [-> [-> [-> Hrest]]]]]]].
      * left. repeat split.
      * right. exists e', rest', ex. split; [reflexivity|]. split; [reflexivity|].
        split; [|exact Hrest]. cbn [concat]. rewrite app_assoc. reflexivity.
    + injection Hrun as <- <-. exists [], []. split; [constructor|].
      right. exists e, rest, ex. repeat split; assumption.
Qed.

(** X18.  When the driver runs to its end, its output is the banner and one
    block per item, in order: the failure message exactly when the item's
    bracket is invalid; otherwise the estimate and frame returned by
    [false_position], and a plot of the item's initial bracket with that
    estimate. *)
Theorem main_reports_each_item
    (functions_data : list (entry T)) (evs : list (event T)) :
  main functions_data = (evs, None) ->
  exists blocks : list (list (event T)),
    Forall2 reported functions_data blocks /\
    evs = banner ++ concat blocks.
Proof.
  unfold main. destruct (process_all functions_data) as [evs' f] eqn:Erun.
  intros [= <- ->].
  destruct (process_all_cases _ Erun) as [done [blocks [Hall Hcase]]].
  destruct Hcase as [[_ [-> ->]] | [e [rest [ex [Hf _]]]]]; [|discriminate].
  exists blocks. split; [exact Hall | reflexivity].
Qed.
End DriverFacts.

(** ** [false_position] on [x**5 + x - 1] over [0.0, 1.0], on binary64 *)

Module QuinticFloatRun.
Import FloatArith QuinticFloat.
Local Open Scope Z_scope.
Local Open Scope string_scope.
Local Open Scope list_scope.
Local Open Scope float_scope.

Section Sound.
Variable p : float -> float.
Hypothesis p_faithful : faithful_pow5 p.

Definition consistent (t : memo) : Prop :=
  forall x v, lookup t x = Some v -> quintic p x = v.

Lemma consistent_nil : consistent [].
Proof. intros x v H. discriminate. Qed.

Lemma consistent_cons (t : memo) (x : float) :
  consistent t -> consistent ((x, quintic p x) :: t).
Proof.
  intros Ht y v. cbn [lookup].
  destruct (Leibniz.eqb x y) eqn:E.
  - apply FloatAxioms.Leibniz.eqb_spec in E. subst y. intros [= <-]. reflexivity.
  - apply Ht.
Qed.

Lemma with_value_sound (t : memo) (x : float) (k : memo -> float -> bool) :
  consistent t -> with_value t x k = true ->
  exists t' : memo, consistent t' /\ k t' (quintic p x) = true.
Proof.
  intros Ht. unfold with_value.
  destruct (lookup t x) as [v|] eqn:El.
  - intros Hk. exists t. split; [exact Ht|]. rewrite (Ht _ _ El). exact Hk.
  - pose proof (p_faithful x) as Hp.
    destruct (pow5_bounds x) as [lo hi]. cbn [fst snd] in Hp.
    destruct (in01 x); [|discriminate].
    destruct (k ((x, lo + x - 1) :: t) (lo + x - 1)) eqn:Hlo; [|discriminate].
    intros Hhi.
    exists ((x, quintic p x) :: t). split; [apply consistent_cons; exact Ht|].
    unfold quintic. destruct (Hp eq_refl) as [-> | ->]; [exact Hlo|].
    destruct (Leibniz.eqb (lo + x - 1) (hi + x - 1)) eqn:Heq; [|exact Hhi].
    apply FloatAxioms.Leibniz.eqb_spec in Heq. rewrite <- Heq. exact Hlo.
Qed.

Lemma explore_sound (fuel : nat) :
  forall (t : memo) (i : Z) (st : fp_locals),
    consistent t ->
    explore fuel t (fp_a st) (fp_b st) (fp_c_old st) = true ->
    exists (st' : fp_locals) (c : float),
      for_range (fp_body (quintic p) tol_default) fuel i st = Ok st' /\
      fp_c st' = Some c /\ accept c = true /\
      last_row_converged tol_default (fp_history st').
Proof.
  induction fuel as [|fuel IH]; intros t i st Ht Hex; [discriminate|].
  cbn [explore] in Hex.
  apply (with_value_sound _ _ Ht) in Hex. destruct Hex as [t1 [Ht1 Hex]].
  apply (with_value_sound _ _ Ht1) in Hex. destruct Hex as [t2 [Ht2 Hex]].
  cbn [for_range]. unfold fp_body.
  change (div (sub (fp_b st) (fp_a st))
              (sub (quintic p (fp_b st)) (quintic p (fp_a st))))
    with (float_div (fp_b st - fp_a st)
            (quintic p (fp_b st) - quintic p (fp_a st))).
  destruct (float_div (fp_b st - fp_a st)
              (quintic p (fp_b st) - quintic p (fp_a st)))
    as [q|ex]; [|discriminate].
  cbn [bind].
  apply (with_value_sound _ _ Ht2) in Hex. destruct Hex as [t3 [Ht3 Hex]].
  set (c := sub (fp_b st) (mul (quintic p (fp_b st)) q)) in *.
  change (fp_b st - quintic p (fp_b st) * q) with c in Hex.
  change (abs (c - fp_c_old st) <? tol_default)
    with (ltb (abs (sub c (fp_c_old st))) tol_default) in Hex.
  destruct (ltb (abs (sub c (fp_c_old st))) tol_default) eqn:Herr.
  - eexists. exists c. split; [reflexivity|]. split; [reflexivity|].
    split; [exact Hex|]. cbn [fp_history].
    eexists. eexists. split; [apply last_snoc|].
    split; [reflexivity | exact Herr].
  - change (quintic p (fp_a st) * quintic p c <? 0)
      with (ltb (mul (quintic p (fp_a st)) (quintic p c)) zero) in Hex.
    destruct (ltb (mul (quintic p (fp_a st)) (quintic p c)) zero).
    + match goal with
      | |- context [for_range _ fuel (i + 1)%Z ?s] =>
          apply (IH t3 (i + 1)%Z s Ht3 Hex)
      end.
    + match goal with
      | |- context [for_range _ fuel (i + 1)%Z ?s] =>
          apply (IH t3 (i + 1)%Z s Ht3 Hex)
      end.
Qed.

Lemma explore_call_sound (a b : float) (max_iter : Z) :
  explore_call a b (Z.to_nat max_iter) = true ->
  exists (c : float) (rows : list (row float)),
    false_position (quintic p) a b tol_default max_iter
    = Ok (PyNum c, DataFrame rows) /\
    (length rows <= Z.to_nat max_iter)%nat /\
    last_row_converged tol_default rows /\
    accept c = true.
Proof.
  unfold explore_call. intros Hex.
  apply (with_value_sound _ _ consistent_nil) in Hex. destruct Hex as [t1 [Ht1 Hex]].
  apply (with_value_sound _ _ Ht1) in Hex. destruct Hex as [t2 [Ht2 Hex]].
  destruct (0 <=? quintic p a * quintic p b) eqn:Hvalid; [discriminate|].
  destruct (@explore_sound (Z.to_nat max_iter) t2 0%Z (fp_init a b) Ht2 Hex)
    as [st' [c [Hrun [Hc [Hacc Hlast]]]]].
  pose proof (fp_trace (quintic p) tol_default a b max_iter) as Htrace.
  unfold false_position in *.
  change (geb (mul (quintic p a) (quintic p b)) zero)
    with (0 <=? quintic p a * quintic p b) in *.
  rewrite Hvalid in *. rewrite Hrun in *. cbn [bind] in *. rewrite Hc in *.
  exists c, (fp_history st'). split; [reflexivity|].
  split; [exact (proj1 Htrace)|]. split; assumption.
Qed.
End Sound.

(** C9.  On binary64, for every faithful fifth power: [false_position] on
    [x**5 + x - 1] over [0.0, 1.0] with the default [tol] and [max_iter]
    returns an estimate and a frame of at most [max_iter = 50] rows; the
    error of the last row is below [tol], and the estimate lies between the
    doubles nearest to [0.7548771] and [0.7548789], within [1e-6] of
    [0.754878]. *)
Theorem false_position_quintic_binary64 (p : float -> float) :
  faithful_pow5 p ->
  exists (c : float) (rows : list (row float)),
    false_position (quintic p) 0 1 tol_default 50 = Ok (PyNum c, DataFrame rows) /\
    (length rows <= 50)%nat /\
    last_row_converged tol_default rows /\
    (0x1.827f4051ffa71p-1 <? c) = true /\ (c <? 0x1.827f7cb7e1834p-1) = true.
Proof.
  intros Hp.
  destruct (@explore_call_sound p Hp 0 1 50) as [c [rows [Hrun [Hlen [Hlast Hacc]]]]].
  - vm_compute. reflexivity.
  - exists c, rows. split; [exact Hrun|]. split; [exact Hlen|].
    split; [exact Hlast|]. apply andb_prop in Hacc. exact Hacc.
Qed.

(** The bounds at some doubles: [0], [1] and [0.5] have their fifth power
    among the doubles; at the double nearest to [0.1] the bounds are two
    neighbours. *)
Lemma pow5_bounds_examples :
  pow5_bounds 0 = (0, 0) /\ pow5_bounds 1 = (1, 1) /\
  pow5_bounds 0.5 = (0x1p-5, 0x1p-5) /\
  pow5_bounds 0x1.999999999999ap-4
  = (0x1.4f8b588e368f2p-17, 0x1.4f8b588e368f3p-17) /\
  next_up 0x1.4f8b588e368f2p-17 = 0x1.4f8b588e368f3p-17.
Proof. repeat split; vm_compute; reflexivity. Qed.

Lemma false_position_quintic_binary64_witness :
  exists (c : float) (rows : list (row float)),
    false_position (quintic (fun x => fst (pow5_bounds x))) 0 1 tol_default 50
    = Ok (PyNum c, DataFrame rows) /\
    (length rows <= 50)%nat /\
    last_row_converged tol_default rows /\
    (0x1.827f4051ffa71p-1 <? c) = true /\ (c <? 0x1.827f7cb7e1834p-1) = true.
Proof.
  apply (@false_position_quintic_binary64 (fun x => fst (pow5_bounds x))).
  intros x _. left. reflexivity.
Defined.
End QuinticFloatRun.

(** ** Instances of the further properties *)

Module FurtherWitnesses.
Import Inputs FloatArith RatArith FloatLaws RatLaws ExactBracket ExactBracketFacts
  ExactMore DriverInputs.
Local Open Scope Z_scope.
Local Open Scope string_scope.
Local Open Scope list_scope.

Lemma newton_stop_reasons_witness :
  exists (x : Q) (rows : list (row Q)),
    newton_raphson Q_ident Q_one 1%Q tol_default 50 = Ok (PyNum x, DataFrame rows) /\
    (last_row_converged tol_default rows \/
     ltb (abs (Q_one x)) eps = true \/
     Z.of_nat (length rows) = 50).
Proof.
  eexists. eexists. split; [vm_compute; reflexivity|].
  apply (@newton_stop_reasons Q Q_arith Q_ident Q_one 1%Q tol_default 50%Z).
  - lia.
  - vm_compute. reflexivity.
Defined.

Lemma secant_stop_reasons_witness :
  exists (x : Q) (rows : list (row Q)),
    secant_method Q_ident 3%Q 1%Q tol_default 50 = Ok (PyNum x, DataFrame rows) /\
    (last_row_converged tol_default rows \/
     (exists x_prev : Q,
         ltb (abs (sub (Q_ident x) (Q_ident x_prev))) eps = true /\
         (rows = [] /\ x_prev = 3%Q /\ x = 1%Q \/
          exists r : row Q,
            nth_error rows (length rows - 1) = Some r /\
            get_num "x_curr" r = Some x_prev)) \/
     Z.of_nat (length rows) = 50).
Proof.
  eexists. eexists. split; [vm_compute; reflexivity|].
  apply (@secant_stop_reasons Q Q_arith Q_ident 3%Q 1%Q tol_default 50%Z).
  - lia.
  - vm_compute. reflexivity.
Defined.

Lemma false_position_stop_reasons_witness :
  exists (c : Q) (rows : list (row Q)),
    false_position Q_square_minus_two 1%Q 2%Q tol_default 3
    = Ok (PyNum c, DataFrame rows) /\
    rows <> [] /\
    (last_row_converged tol_default rows \/ Z.of_nat (length rows) = 3).
Proof.
  eexists. eexists. split; [vm_compute; reflexivity|].
  eapply (@false_position_stop_reasons Q Q_arith Q_square_minus_two 1%Q 2%Q
           tol_default 3%Z).
  vm_compute. reflexivity.
Defined.

Lemma newton_rows_follow_iterates_witness :
  exists (x : Q) (rows : list (row Q)),
    newton_raphson Q_square_minus_two Q_twice 1%Q tol_default 2
    = Ok (PyNum x, DataFrame rows) /\
    exists xs : list Q,
    length xs = Datatypes.S (length rows) /\
    nth_error xs 0 = Some 1%Q /\
    nth_error xs (length rows) = Some x /\
    forall (k : nat) (r : row Q),
      nth_error rows k = Some r ->
      exists x_k x_next q : Q,
        nth_error xs k = Some x_k /\
        nth_error xs (Datatypes.S k) = Some x_next /\
        ltb (abs (Q_twice x_k)) eps = false /\
        div (Q_square_minus_two x_k) (Q_twice x_k) = Ok q /\
        x_next = sub x_k q /\
        r = newton_row (Z.of_nat k + 1) x_k (Q_square_minus_two x_k)
              (abs (sub x_next x_k)).
Proof.
  eexists. eexists. split; [vm_compute; reflexivity|].
  apply (@newton_rows_follow_iterates Q Q_arith Q_square_minus_two Q_twice
           1%Q tol_default 2%Z).
  vm_compute. reflexivity.
Defined.

Lemma secant_rows_follow_iterates_witness :
  exists (x : Q) (rows : list (row Q)),
    secant_method Q_square_minus_two 1%Q 2%Q tol_default 2
    = Ok (PyNum x, DataFrame rows) /\
    exists xs : list Q,
    length xs = Datatypes.S (Datatypes.S (length rows)) /\
    nth_error xs 0 = Some 1%Q /\
    nth_error xs 1 = Some 2%Q /\
    nth_error xs (Datatypes.S (length rows)) = Some x /\
    forall (k : nat) (r : row Q),
      nth_error rows k = Some r ->
      exists x_prev x_curr x_next q : Q,
        nth_error xs k = Some x_prev /\
        nth_error xs (Datatypes.S k) = Some x_curr /\
        nth_error xs (Datatypes.S (Datatypes.S k)) = Some x_next /\
        ltb (abs (sub (Q_square_minus_two x_curr) (Q_square_minus_two x_prev))) eps
        = false /\
        div (sub x_curr x_prev)
          (sub (Q_square_minus_two x_curr) (Q_square_minus_two x_prev)) = Ok q /\
        x_next = sub x_curr (mul (Q_square_minus_two x_curr) q) /\
        r = secant_row (Z.of_nat k + 1) x_curr (Q_square_minus_two x_curr)
              (abs (sub x_next x_curr)).
Proof.
  eexists. eexists. split; [vm_compute; reflexivity|].
  apply (@secant_rows_follow_iterates Q Q_arith Q_square_minus_two
           1%Q 2%Q tol_default 2%Z).
  vm_compute. reflexivity.
Defined.

Lemma false_position_zero_iterations_unbound_witness :
  false_position float_ident (-1)%float 1%float tol_default 0
  = Raise UnboundLocalError /\
  false_position Q_ident (-1)%Q 1%Q tol_default (-3) = Raise UnboundLocalError.
Proof.
  split.
  - apply (@false_position_zero_iterations_unbound float float_arith float_ident
             (-1)%float 1%float tol_default 0%Z).
    + vm_compute. reflexivity.
    + lia.
  - apply (@false_position_zero_iterations_unbound Q Q_arith Q_ident
             (-1)%Q 1%Q tol_default (-3)%Z).
    + vm_compute. reflexivity.
    + lia.
Defined.

Lemma secant_first_step_is_chord_witness :
  exists r_fp r_sc : row Q,
    nth_error (trace_of (false_position Q_square_minus_two 1%Q 2%Q tol_default 3)) 0
    = Some r_fp /\
    nth_error (trace_of (secant_method Q_square_minus_two 1%Q 2%Q tol_default 3)) 0
    = Some r_sc /\
    exists c : Q,
    get_num "root" r_fp = Some c /\
    get_num "x_curr" r_sc = Some 2%Q /\
    row_error r_sc = Some (abs (sub c 2%Q)) /\
    (forall r,
        nth_error (trace_of (secant_method Q_square_minus_two 1%Q 2%Q tol_default 3)) 1
        = Some r ->
        get_num "x_curr" r = Some c).
Proof.
  eexists. eexists. split; [vm_compute; reflexivity|].
  split; [vm_compute; reflexivity|].
  apply (@secant_first_step_is_chord Q Q_arith Q_square_minus_two 1%Q 2%Q
           tol_default 3%Z).
  - vm_compute. reflexivity.
  - vm_compute. reflexivity.
Defined.

Lemma empty_trace_iff_no_step_witness :
  (trace_of (newton_raphson Q_ident Q_zero 1%Q tol_default 50) = [] <->
   50 <= 0 \/ ltb (abs (Q_zero 1%Q)) eps = true) /\
  (trace_of (secant_method float_ident 1%float 2%float tol_default 50) = [] <->
   50 <= 0 \/ ltb (abs (sub (float_ident 2%float) (float_ident 1%float))) eps = true).
Proof.
  split.
  - apply (proj1 (@empty_trace_iff_no_step Q Q_arith Q_laws Q_ident Q_zero
                    1%Q 1%Q tol_default 50%Z)).
  - apply (proj2 (@empty_trace_iff_no_step float float_arith float_laws float_ident
                    float_ident 1%float 2%float tol_default 50%Z)).
Defined.

Lemma false_position_exact_returns_witness :
  exists e t : obj Q, false_position Q_quintic 0%Q 1%Q tol_default 50 = Ok (e, t).
Proof.
  apply (@false_position_exact_returns Q_quintic 0%Q 1%Q tol_default 50%Z).
  - reflexivity.
  - lia.
Defined.

Lemma estimate_inside_bracket_witness :
  exists (c : Q) (t : obj Q),
    false_position Q_square_minus_two 1%Q 2%Q tol_default 3 = Ok (PyNum c, t) /\
    (1 < c /\ c < 2)%Q.
Proof.
  eexists. eexists. split; [vm_compute; reflexivity|].
  eapply (@estimate_inside_bracket Q_square_minus_two 1%Q 2%Q tol_default 3%Z).
  - reflexivity.
  - reflexivity.
  - vm_compute. reflexivity.
Defined.

Lemma bracket_shrinks_witness :
  exists st st' : fp_locals,
    nth_error (loop_heads (fp_body Q_square_minus_two tol_default) 3 0
                 (fp_init 1%Q 2%Q)) 1 = Some st /\
    nth_error (loop_heads (fp_body Q_square_minus_two tol_default) 3 0
                 (fp_init 1%Q 2%Q)) 2 = Some st' /\
    (1 <= fp_a st /\ fp_b st <= 2 /\
     fp_a st' < fp_b st' /\
     (fp_a st' = fp_a st /\ fp_b st' < fp_b st \/
      fp_a st < fp_a st' /\ fp_b st' = fp_b st))%Q.
Proof.
  eexists. eexists. split; [vm_compute; reflexivity|].
  split; [vm_compute; reflexivity|].
  apply (@bracket_shrinks Q_square_minus_two 1%Q 2%Q tol_default 3%Z)
    with (k := 1%nat).
  - reflexivity.
  - reflexivity.
  - reflexivity.
  - vm_compute. reflexivity.
  - vm_compute. reflexivity.
Defined.

Lemma exact_root_is_returned_witness :
  exists st : fp_locals,
    nth_error (loop_heads (fp_body Q_ident tol_default) 50 0
                 (fp_init (-1)%Q 1%Q)) 1 = Some st /\
    exists (c : Q) (rows : list (row Q)),
      false_position Q_ident (-1)%Q 1%Q tol_default 50
      = Ok (PyNum c, DataFrame rows) /\
      (c == fp_a st)%Q.
Proof.
  eexists. split; [vm_compute; reflexivity|].
  apply (@exact_root_is_returned Q_ident (-1)%Q 1%Q tol_default 50%Z 1%nat).
  - reflexivity.
  - reflexivity.
  - vm_compute. reflexivity.
  - vm_compute. lia.
  - vm_compute. reflexivity.
Defined.

Lemma newton_error_column_witness :
  exists r : row Q,
    nth_error (trace_of (newton_raphson Q_square_minus_two Q_twice 1%Q tol_default 2)) 1
    = Some r /\
    exists x_k e : Q,
      get_num "x_curr" r = Some x_k /\
      get_num "f(x)" r = Some (Q_square_minus_two x_k) /\
      row_error r = Some e /\
      (e == Qabs (Q_square_minus_two x_k / Q_twice x_k))%Q /\
      (eps <= Qabs (Q_twice x_k))%Q /\
      (ltb e tol_default = true ->
       (Qabs (Q_square_minus_two x_k) < tol_default * Qabs (Q_twice x_k))%Q).
Proof.
  eexists. split; [vm_compute; reflexivity|].
  apply (@newton_error_column Q_square_minus_two Q_twice 1%Q tol_default 2%Z 1%nat).
  vm_compute. reflexivity.
Defined.

Lemma stopped_run_ignores_cap_witness :
  exists (x : Q) (rows : list (row Q)),
    newton_raphson Q_ident Q_one 1%Q tol_default 50 = Ok (PyNum x, DataFrame rows) /\
    newton_raphson Q_ident Q_one 1%Q tol_default 60 = Ok (PyNum x, DataFrame rows).
Proof.
  eexists. eexists. split; [vm_compute; reflexivity|].
  apply (proj1 (@stopped_run_ignores_cap Q Q_arith) Q_ident Q_one 1%Q tol_default
           50 60).
  - vm_compute. reflexivity.
  - left. vm_compute. reflexivity.
  - lia.
Defined.

Lemma smaller_cap_gives_prefix_witness :
  exists (c : Q) (rows : list (row Q)),
    false_position Q_square_minus_two 1%Q 2%Q tol_default 3
    = Ok (PyNum c, DataFrame rows) /\
    exists c' : Q,
      false_position Q_square_minus_two 1%Q 2%Q tol_default 2
      = Ok (PyNum c', DataFrame (firstn (Z.to_nat 2) rows)).
Proof.
  eexists. eexists. split; [vm_compute; reflexivity|].
  eapply (proj2 (proj2 (@smaller_cap_gives_prefix Q Q_arith)) Q_square_minus_two
            1%Q 2%Q tol_default 3 2).
  - vm_compute. reflexivity.
  - lia.
Defined.

Lemma false_position_raise_causes_witness :
  exists ex : exn,
    false_position float_steps (-1)%float 1%float tol_default 50 = Raise ex /\
    geb (mul (float_steps (-1)%float) (float_steps 1%float)) zero = false /\
    (ex = UnboundLocalError /\ 50 <= 0
     \/
     exists (k : nat) (st : fp_locals),
       nth_error (loop_heads (fp_body float_steps tol_default) (Z.to_nat 50) 0
                    (fp_init (-1)%float 1%float)) k
       = Some st /\
       (k < Z.to_nat 50)%nat /\
       div (sub (fp_b st) (fp_a st)) (sub (float_steps (fp_b st)) (float_steps (fp_a st)))
       = Raise ex).
Proof.
  eexists. split; [vm_compute; reflexivity|].
  apply (@false_position_raise_causes float float_arith float_steps
           (-1)%float 1%float tol_default 50).
  vm_compute. reflexivity.
Defined.

Lemma main_reports_each_item_witness :
  exists evs : list (event Q),
    main Q_items = (evs, None) /\
    exists blocks : list (list (event Q)),
      Forall2 reported Q_items blocks /\
      evs = banner ++ concat blocks.
Proof.
  eexists. split; [vm_compute; reflexivity|].
  apply (@main_reports_each_item Q Q_arith Q_items).
  vm_compute. reflexivity.
Defined.
End FurtherWitnesses.
